(** * LocalKVStorage: the file-backed key-value store of src/local-kv.ts

    A shallow embedding of the class [LocalKVStorage] and of the platform
    functions it calls (the insertion-ordered [Map], [TextEncoder] and
    [TextDecoder], own-property ordering of objects, the [fs] calls on the
    backing file), followed by the properties of the store. *)

From Stdlib Require Import ZArith List Bool Lia Permutation String Ascii.
From Stdlib.Strings Require Byte.
Import ListNotations.
Open Scope Z_scope.

(** ** JavaScript strings

    A JavaScript string is a sequence of UTF-16 code units. *)

Definition JSString : Type := list Z.

(** The code units of an ASCII literal, used to write keys and values. *)
Definition js (s : string) : JSString :=
  map (fun a => Z.of_N (N_of_ascii a)) (list_ascii_of_string s).

Definition is_code_unit (u : Z) : Prop := 0 <= u < 65536.

Fixpoint str_eqb (s t : JSString) : bool :=
  match s, t with
  | [], [] => true
  | a :: s', b :: t' => (a =? b) && str_eqb s' t'
  | _, _ => false
  end.

(** [String.prototype.startsWith(searchString)], position 0. *)
Fixpoint startsWith (s searchString : JSString) {struct searchString} : bool :=
  match searchString, s with
  | [], _ => true
  | p :: ps, c :: cs => (c =? p) && startsWith cs ps
  | _ :: _, [] => false
  end.

(** ** Byte buffers and the UTF-8 codecs of the platform *)

Definition ArrayBuffer : Type := list Byte.byte.

Definition Z_of_byte (b : Byte.byte) : Z := Z.of_N (Byte.to_N b).

Definition byte_of_Z (z : Z) : Byte.byte :=
  match Byte.of_N (Z.to_N z) with
  | Some b => b
  | None => Byte.x00
  end.

Definition REPLACEMENT : Z := 65533.   (* U+FFFD *)
Definition BOM : Z := 65279.           (* U+FEFF *)

Definition is_scalar (c : Z) : Prop :=
  0 <= c < 55296 \/ 57344 <= c < 1114112.

(** The state of the WHATWG UTF-8 decoder: either no sequence is open, or
    [cp] has been accumulated, [needed] continuation bytes are still due
    and the next one must lie in [lower, upper]. *)
Inductive utf8_state : Type :=
| Start
| Pending (cp needed lower upper : Z).

(** What the decoder does with a byte read while no sequence is open:
    the code points it emits and the state it moves to. *)
Definition utf8_lead (b : Z) : list Z * utf8_state :=
  if b <=? 127 then ([b], Start)
  else if (194 <=? b) && (b <=? 223) then ([], Pending (b mod 32) 1 128 191)
  else if (224 <=? b) && (b <=? 239) then
    ([], Pending (b mod 16) 2 (if b =? 224 then 160 else 128)
                              (if b =? 237 then 159 else 191))
  else if (240 <=? b) && (b <=? 244) then
    ([], Pending (b mod 8) 3 (if b =? 240 then 144 else 128)
                             (if b =? 244 then 143 else 191))
  else ([REPLACEMENT], Start).

(** The decoder in replacement mode (fatal = false): a byte that cannot
    continue the open sequence yields U+FFFD and is then read again as a
    lead byte; an open sequence at the end of input yields U+FFFD. *)
Fixpoint utf8_decode (st : utf8_state) (bs : list Z) : list Z :=
  match bs with
  | [] => match st with Start => [] | Pending _ _ _ _ => [REPLACEMENT] end
  | b :: rest =>
      match st with
      | Start =>
          let '(out, st') := utf8_lead b in out ++ utf8_decode st' rest
      | Pending cp needed lower upper =>
          if (lower <=? b) && (b <=? upper) then
            let cp' := cp * 64 + b mod 64 in
            if needed =? 1 then cp' :: utf8_decode Start rest
            else utf8_decode (Pending cp' (needed - 1) 128 191) rest
          else
            let '(out, st') := utf8_lead b in
            REPLACEMENT :: out ++ utf8_decode st' rest
      end
  end.

(** The UTF-8 bytes of one scalar value. *)
Definition utf8_encode_cp (c : Z) : list Z :=
  if c <=? 127 then [c]
  else if c <=? 2047 then [192 + c / 64; 128 + c mod 64]
  else if c <=? 65535 then
    [224 + c / 4096; 128 + (c / 64) mod 64; 128 + c mod 64]
  else
    [240 + c / 262144; 128 + (c / 4096) mod 64;
     128 + (c / 64) mod 64; 128 + c mod 64].

Definition utf8_encode (cps : list Z) : list Z := flat_map utf8_encode_cp cps.

(** Code points to UTF-16 code units. *)
Definition utf16_units (c : Z) : list Z :=
  if c <? 65536 then [c]
  else [55296 + (c - 65536) / 1024; 56320 + (c - 65536) mod 1024].

Definition is_lead_surrogate (u : Z) : bool := (55296 <=? u) && (u <=? 56319).
Definition is_trail_surrogate (u : Z) : bool := (56320 <=? u) && (u <=? 57343).

(** Code units to scalar values, as the conversion to a USVString does it:
    a surrogate pair becomes its code point, a lone surrogate U+FFFD. *)
Fixpoint scalar_values (s : JSString) : list Z :=
  match s with
  | [] => []
  | u :: rest =>
      if is_lead_surrogate u then
        match rest with
        | t :: rest' =>
            if is_trail_surrogate t then
              (65536 + (u - 55296) * 1024 + (t - 56320)) :: scalar_values rest'
            else REPLACEMENT :: scalar_values rest
        | [] => [REPLACEMENT]
        end
      else if is_trail_surrogate u then REPLACEMENT :: scalar_values rest
      else u :: scalar_values rest
  end.

(** A leading U+FEFF is dropped by a decoder whose ignoreBOM is false. *)
Definition strip_BOM (cps : list Z) : list Z :=
  match cps with
  | c :: rest => if c =? BOM then rest else cps
  | [] => []
  end.

(** [new TextDecoder().decode(buffer)]: UTF-8, fatal = false,
    ignoreBOM = false. *)
Definition TextDecoder_decode (buffer : ArrayBuffer) : JSString :=
  flat_map utf16_units (strip_BOM (utf8_decode Start (map Z_of_byte buffer))).

(** [new TextEncoder().encode(s).buffer]. *)
Definition TextEncoder_encode (s : JSString) : ArrayBuffer :=
  map byte_of_Z (utf8_encode (scalar_values s)).

(** ** The insertion-ordered [Map] of JavaScript

    A [Map] keeps its entries in insertion order; [set] on a key that is
    present replaces the value where the entry stands, [set] on a new key
    appends. *)

Definition JSMap (V : Type) : Type := list (JSString * V).

Section JSMapOps.
Context {V : Type}.

Definition Map_empty : JSMap V := [].

Fixpoint Map_get (key : JSString) (m : JSMap V) : option V :=
  match m with
  | [] => None
  | (k, v) :: m' => if str_eqb k key then Some v else Map_get key m'
  end.

Fixpoint Map_set (key : JSString) (v : V) (m : JSMap V) : JSMap V :=
  match m with
  | [] => [(key, v)]
  | (k, w) :: m' =>
      if str_eqb k key then (k, v) :: m' else (k, w) :: Map_set key v m'
  end.

Definition Map_delete (key : JSString) (m : JSMap V) : JSMap V :=
  filter (fun kv => negb (str_eqb (fst kv) key)) m.

Definition Map_entries (m : JSMap V) : list (JSString * V) := m.

Definition Map_keys (m : JSMap V) : list JSString := map fst m.

(** [new Map(entries)]: the entries are set one after the other. *)
Definition Map_of_entries (entries : list (JSString * V)) : JSMap V :=
  fold_left (fun m kv => Map_set (fst kv) (snd kv) m) entries Map_empty.
End JSMapOps.

(** ** Plain objects and the order of their own properties

    An object lists its properties with the array indices first, in
    ascending numeric order, and the other string keys after them in the
    order of their creation. [Object.entries] and [JSON.stringify] both
    follow that order. *)

Definition JSObject (V : Type) : Type := list (JSString * V).

Fixpoint digits_value (acc : Z) (s : JSString) : option Z :=
  match s with
  | [] => Some acc
  | c :: rest =>
      if (48 <=? c) && (c <=? 57) then digits_value (acc * 10 + (c - 48)) rest
      else None
  end.

(** A key is an array index when it is the canonical decimal numeral of an
    integer between 0 and 2^32 - 2. *)
Definition array_index (key : JSString) : option Z :=
  match key with
  | [] => None
  | c :: rest =>
      if (c =? 48) && negb (Nat.eqb (List.length rest) 0) then None
      else match digits_value 0 key with
           | Some n => if n <? 4294967295 then Some n else None
           | None => None
           end
  end.

Section JSObjectOps.
Context {V : Type}.

Definition CreateDataProperty (o : JSObject V) (key : JSString) (v : V)
  : JSObject V := Map_set key v o.

(** [Object.fromEntries(iterable)]. *)
Definition Object_fromEntries (entries : list (JSString * V)) : JSObject V :=
  fold_left (fun o kv => CreateDataProperty o (fst kv) (snd kv)) entries [].

Fixpoint insert_index (n : Z) (kv : JSString * V)
         (l : list (Z * (JSString * V))) : list (Z * (JSString * V)) :=
  match l with
  | [] => [(n, kv)]
  | (m, kv') :: l' =>
      if n <? m then (n, kv) :: l else (m, kv') :: insert_index n kv l'
  end.

Definition sort_indices (l : list (Z * (JSString * V)))
  : list (Z * (JSString * V)) :=
  fold_left (fun acc p => insert_index (fst p) (snd p) acc) l [].

Definition index_properties (o : JSObject V) : list (Z * (JSString * V)) :=
  flat_map (fun kv => match array_index (fst kv) with
                      | Some n => [(n, kv)]
                      | None => []
                      end) o.

Definition named_properties (o : JSObject V) : list (JSString * V) :=
  filter (fun kv => match array_index (fst kv) with
                    | Some _ => false
                    | None => true
                    end) o.

(** [Object.entries(o)]. *)
Definition Object_entries (o : JSObject V) : list (JSString * V) :=
  map snd (sort_indices (index_properties o)) ++ named_properties o.
End JSObjectOps.

(** ** The store's entries and the backing file *)

(** A stored item, [{ value: string; expiry?: number }]. [expiry] is
    [None] when the property is undefined or missing. Timestamps are
    integral milliseconds since the epoch. *)
Record Item : Type := mkItem { value : JSString; expiry : option Z }.

(** What the file at [storagePath] holds: a text that [JSON.parse] rejects,
    or a JSON object whose members, in the order of the text, have the
    shape of the persisted format. The text itself is the platform's:
    [JSON.parse] gives back the members [JSON.stringify] wrote. A member
    whose expiry is undefined is written without that property and read
    back without it. Documents of another shape fall outside the declared
    type of [this.data]. *)
Inductive FileContent : Type :=
| NotJson
| JsonObject (members : list (JSString * Item)).

Inductive JSError : Type := SyntaxError | EACCES | ENOENT.

Inductive LogLine : Type :=
| warn_Failed_to_load (error : JSError)
| error_Failed_to_save (error : JSError).

(** The instance ([data]) together with the part of the world it touches:
    whether the directory of [storagePath] exists, the file at
    [storagePath], and the console. *)
Record state : Type := mkState {
  data : JSMap Item;
  directory : bool;
  file : option FileContent;
  console : list LogLine
}.

(** The inputs an operation reads from its environment: the clock reading
    [Date.now()] and whether the file system accepts a write. *)
Record env : Type := mkEnv { Date_now : Z; fs_writable : bool }.

(** ** Computations: environment, state and exceptions *)

Inductive completion (A : Type) : Type :=
| Normal (a : A)
| Throw (e : JSError).
Arguments Normal {A} a.
Arguments Throw {A} e.

Definition Eff (A : Type) : Type := env -> state -> completion A * state.

Definition ret {A} (a : A) : Eff A := fun _ s => (Normal a, s).

Definition bind {A B} (m : Eff A) (k : A -> Eff B) : Eff B :=
  fun e s =>
    match m e s with
    | (Normal a, s') => k a e s'
    | (Throw err, s') => (Throw err, s')
    end.

Definition throw {A} (err : JSError) : Eff A := fun _ s => (Throw err, s).

Definition try_catch {A} (body : Eff A) (handler : JSError -> Eff A) : Eff A :=
  fun e s =>
    match body e s with
    | (Normal a, s') => (Normal a, s')
    | (Throw err, s') => handler err e s'
    end.

Declare Scope eff_scope.
Delimit Scope eff_scope with eff.
Notation "x <- m ;; k" := (bind m (fun x => k))
  (at level 61, m at next level, right associativity) : eff_scope.
Notation "m ;; k" := (bind m (fun _ => k))
  (at level 61, right associativity) : eff_scope.
Open Scope eff_scope.

Definition lift {A} (c : completion A) : Eff A := fun _ s => (c, s).
Definition now : Eff Z := fun e s => (Normal (Date_now e), s).
Definition this_data : Eff (JSMap Item) := fun _ s => (Normal (data s), s).
Definition set_this_data (m : JSMap Item) : Eff unit :=
  fun _ s => (Normal tt, mkState m (directory s) (file s) (console s)).
Definition console_log (l : LogLine) : Eff unit :=
  fun _ s =>
    (Normal tt, mkState (data s) (directory s) (file s) (console s ++ [l])).

(** The [fs] calls, on the one path the instance uses. [mkdirSync] is
    taken to succeed. *)
Definition fs_existsSync_dir : Eff bool := fun _ s => (Normal (directory s), s).
Definition fs_mkdirSync : Eff unit :=
  fun _ s => (Normal tt, mkState (data s) true (file s) (console s)).
Definition fs_existsSync : Eff bool :=
  fun _ s => (Normal (match file s with Some _ => true | None => false end), s).
Definition fs_readFileSync : Eff FileContent :=
  fun _ s => match file s with
             | Some c => (Normal c, s)
             | None => (Throw ENOENT, s)
             end.
Definition fs_writeFileSync (c : FileContent) : Eff unit :=
  fun e s =>
    if negb (directory s) then (Throw ENOENT, s)
    else if fs_writable e
    then (Normal tt, mkState (data s) (directory s) (Some c) (console s))
    else (Throw EACCES, s).

(** [JSON.parse] and [JSON.stringify] on the backing file. *)
Definition JSON_parse (c : FileContent) : completion (JSObject Item) :=
  match c with
  | NotJson => Throw SyntaxError
  | JsonObject members =>
      Normal (fold_left (fun o kv => CreateDataProperty o (fst kv) (snd kv))
                        members [])
  end.

Definition JSON_stringify (o : JSObject Item) : FileContent :=
  JsonObject (Object_entries o).

(** ** The class [LocalKVStorage] *)

(** The [type] argument of [get]. *)
Inductive GetType : Type := text | json | arrayBuffer | stream.

(** What [get] resolves to. [JSON_parse_of s] stands for the completion of
    [JSON.parse(s)] on the stored text, a value or a SyntaxError as the
    platform's parser decides; [ReadableStream chunks] is a stream that
    delivers the chunks in order and is then closed. *)
Inductive GetResult : Type :=
| null
| String_ (s : JSString)
| JSON_parse_of (s : JSString)
| ArrayBuffer_ (bytes : ArrayBuffer)
| ReadableStream (chunks : list ArrayBuffer).

(** The [value] argument of [put], [string | ArrayBuffer]. *)
Inductive PutValue : Type :=
| StringValue (s : JSString)
| BufferValue (b : ArrayBuffer).

Record PutOptions : Type := mkPutOptions { expirationTtl : option Z }.

(** An argument received by [list]. The class declares [prefix?: string];
    the interface [KVNamespace], under which the instance is handed out,
    declares [options?: { prefix?: string }], so a call through the
    interface passes an object. *)
Record ListOptions : Type := mkListOptions { prefix : option JSString }.

Inductive ListArgument : Type :=
| Undefined
| StringArgument (s : JSString)
| ObjectArgument (options : ListOptions).

(** [!x] on an argument of [list]. *)
Definition falsy (a : ListArgument) : bool :=
  match a with
  | Undefined => true
  | StringArgument s => match s with [] => true | _ => false end
  | ObjectArgument _ => false
  end.

(** [ToString], as [startsWith] applies it to its argument. *)
Definition ToString (a : ListArgument) : JSString :=
  match a with
  | Undefined => js "undefined"
  | StringArgument s => s
  | ObjectArgument _ => js "[object Object]"
  end.

Record KeyDescriptor : Type := mkKey { name : JSString }.
Record ListResult : Type := mkListResult { keys : list KeyDescriptor }.

(** [item.expiry && item.expiry < now]: undefined and 0 are falsy. *)
Definition expired (t : Z) (item : Item) : bool :=
  match expiry item with
  | None => false
  | Some x => if x =? 0 then false else x <? t
  end.

Module LocalKVStorage.

Definition ensureStorageDirectory : Eff unit :=
  present <- fs_existsSync_dir ;;
  if negb present then fs_mkdirSync else ret tt.

Definition loadFromDisk : Eff unit :=
  try_catch
    (present <- fs_existsSync ;;
     if present then
       content <- fs_readFileSync ;;
       o <- lift (JSON_parse content) ;;
       set_this_data (Map_of_entries (Object_entries o))
     else ret tt)
    (fun error =>
       console_log (warn_Failed_to_load error) ;;
       set_this_data Map_empty).

Definition saveToDisk : Eff unit :=
  try_catch
    (d <- this_data ;;
     let o := Object_fromEntries (Map_entries d) in
     fs_writeFileSync (JSON_stringify o))
    (fun error => console_log (error_Failed_to_save error)).

(** One turn of the loop of [cleanupExpired], on the map and the flag
    [hasExpired]. *)
Definition cleanup_step (t : Z) (acc : JSMap Item * bool)
           (entry : JSString * Item) : JSMap Item * bool :=
  if expired t (snd entry)
  then (Map_delete (fst entry) (fst acc), true)
  else acc.

Definition cleanupExpired : Eff unit :=
  t <- now ;;
  d <- this_data ;;
  let '(d', hasExpired) :=
    fold_left (cleanup_step t) (Map_entries d) (d, false) in
  set_this_data d' ;;
  if hasExpired then saveToDisk else ret tt.

Definition constructor : Eff unit :=
  set_this_data Map_empty ;;
  ensureStorageDirectory ;;
  loadFromDisk.

Definition get (key : JSString) (type : option GetType) : Eff GetResult :=
  cleanupExpired ;;
  d <- this_data ;;
  match Map_get key d with
  | None => ret null
  | Some item =>
      match type with
      | Some json => ret (JSON_parse_of (value item))
      | Some arrayBuffer => ret (ArrayBuffer_ (TextEncoder_encode (value item)))
      | Some stream => ret (ReadableStream [TextEncoder_encode (value item)])
      | _ => ret (String_ (value item))
      end
  end.

Definition put (key : JSString) (v : PutValue) (options : option PutOptions)
  : Eff unit :=
  let stringValue :=
    match v with
    | BufferValue b => TextDecoder_decode b
    | StringValue s => s
    end in
  expiry <- match options with
            | Some (mkPutOptions (Some ttl)) =>
                if ttl =? 0 then ret None
                else t <- now ;; ret (Some (t + ttl * 1000))
            | _ => ret None
            end ;;
  d <- this_data ;;
  set_this_data (Map_set key (mkItem stringValue expiry) d) ;;
  saveToDisk.

Definition delete (key : JSString) : Eff unit :=
  d <- this_data ;;
  set_this_data (Map_delete key d) ;;
  saveToDisk.

Definition list (arg : ListArgument) : Eff ListResult :=
  cleanupExpired ;;
  d <- this_data ;;
  ret (mkListResult
         (map mkKey
              (filter (fun key => falsy arg || startsWith key (ToString arg))
                      (Map_keys d)))).

End LocalKVStorage.

(** [new LocalKVStorage(storagePath)] in a world whose directory, file and
    console are those of [w]. *)
Definition new_LocalKVStorage (e : env) (w : state) : completion unit * state :=
  LocalKVStorage.constructor e w.

(** ** Sequences of calls *)

Inductive Call : Type :=
| call_get (key : JSString) (type : option GetType)
| call_put (key : JSString) (v : PutValue) (options : option PutOptions)
| call_delete (key : JSString)
| call_list (arg : ListArgument).

Definition perform (c : Call) (e : env) (s : state) : state :=
  match c with
  | call_get key type => snd (LocalKVStorage.get key type e s)
  | call_put key v options => snd (LocalKVStorage.put key v options e s)
  | call_delete key => snd (LocalKVStorage.delete key e s)
  | call_list arg => snd (LocalKVStorage.list arg e s)
  end.

Fixpoint run (calls : list (env * Call)) (s : state) : state :=
  match calls with
  | [] => s
  | (e, c) :: rest => run rest (perform c e s)
  end.

(** ** Notions used in the statements *)

(** The representation invariant of a [Map]: its keys are distinct. *)
Definition Map_wf {V} (m : JSMap V) : Prop := NoDup (Map_keys m).

Definition with_data (m : JSMap Item) (s : state) : state :=
  mkState m (directory s) (file s) (console s).

(** The document [saveToDisk] writes for a map. *)
Definition persisted (m : JSMap Item) : FileContent :=
  JSON_stringify (Object_fromEntries (Map_entries m)).

(** The state [saveToDisk] leaves: the file replaced when the write goes
    through, the file untouched and an error logged when it does not. *)
Definition saved (e : env) (s : state) : state :=
  if negb (directory s) then
    mkState (data s) (directory s) (file s)
            (console s ++ [error_Failed_to_save ENOENT])
  else if fs_writable e then
    mkState (data s) (directory s) (Some (persisted (data s))) (console s)
  else
    mkState (data s) (directory s) (file s)
            (console s ++ [error_Failed_to_save EACCES]).

(** The entries that an eviction at clock reading [t] keeps. *)
Definition live (t : Z) (m : JSMap Item) : JSMap Item :=
  filter (fun kv => negb (expired t (snd kv))) m.

Definition any_expired (t : Z) (m : JSMap Item) : bool :=
  existsb (fun kv => expired t (snd kv)) m.

Definition evicted (e : env) (s : state) : state :=
  let s' := with_data (live (Date_now e) (data s)) s in
  if any_expired (Date_now e) (data s) then saved e s' else s'.

(** The value [get] hands back for an item, by requested type. *)
Definition render (type : option GetType) (it : Item) : GetResult :=
  match type with
  | Some json => JSON_parse_of (value it)
  | Some arrayBuffer => ArrayBuffer_ (TextEncoder_encode (value it))
  | Some stream => ReadableStream [TextEncoder_encode (value it)]
  | _ => String_ (value it)
  end.

(** The expiry [put] computes. *)
Definition put_expiry (t : Z) (options : option PutOptions) : option Z :=
  match options with
  | Some (mkPutOptions (Some ttl)) =>
      if ttl =? 0 then None else Some (t + ttl * 1000)
  | _ => None
  end.

Definition put_string (v : PutValue) : JSString :=
  match v with
  | BufferValue b => TextDecoder_decode b
  | StringValue s => s
  end.

(** [put] was called without a time to live: no options, or options
    without [expirationTtl]. *)
Definition no_ttl (options : option PutOptions) : Prop :=
  options = None \/ options = Some (mkPutOptions None).

(** [get] was called for the text: no type, or ["text"]. *)
Definition text_requested (type : option GetType) : Prop :=
  type = None \/ type = Some text.

Definition empty_store : state := mkState Map_empty true None [].

Definition with_ttl (t : Z) : option PutOptions :=
  Some (mkPutOptions (Some t)).

Definition present (key : JSString) (s : state) : Prop :=
  exists it, Map_get key (data s) = Some it.

Definition two_sessions : state :=
  mkState [(js "session:1", mkItem (js "x") None);
           (js "token", mkItem (js "y") (Some 500))] true None [].

(** The store after put("k", "v", {expirationTtl: -1750927763}) at clock
    reading 1750927763000: the expiry computed is 0. *)
Definition epoch_expiry_store : state :=
  snd (LocalKVStorage.put (js "k") (StringValue (js "v"))
         (with_ttl (-1750927763)) (mkEnv 1750927763000 true) empty_store).

(** A call of [list] through [KVNamespace], whose signature is
    [list(options?: { prefix?: string })]: the instance is handed out by a
    type assertion, so the options object arrives as the argument of the
    method of the class. *)
Definition KVNamespace_list (options : option ListOptions) : Eff ListResult :=
  LocalKVStorage.list match options with
                      | None => Undefined
                      | Some o => ObjectArgument o
                      end.

(** The listing the specification prescribes for a call with these
    options: the keys that start with the prefix given, all keys when none
    is given. *)
Definition prescribed_keys (options : option ListOptions) (m : JSMap Item)
  : list KeyDescriptor :=
  map mkKey
      (filter (fun key => match options with
                          | Some (mkListOptions (Some p)) => startsWith key p
                          | _ => true
                          end) (Map_keys m)).

Definition one_token : state :=
  mkState [(js "oauth:token", mkItem (js "t") None)] true None [].

(** The map [loadFromDisk] builds from a JSON object read from the file. *)
Definition loaded (members : list (JSString * Item)) : JSMap Item :=
  Map_of_entries
    (Object_entries
       (fold_left (fun o kv => CreateDataProperty o (fst kv) (snd kv))
                  members [])).


(** The UTF-8 buffer of a sequence of scalar values. *)
Definition utf8_buffer (cps : list Z) : ArrayBuffer :=
  map byte_of_Z (utf8_encode cps).

(** ** The environment loader [loadNodeEnv]

    [loadNodeEnv] reads the file [.env] of the working directory line by
    line into [process.env], constructs the store and returns the record
    of settings. *)

(** White space and line terminators, as [String.prototype.trim] strips
    them: TAB, LF, VT, FF, CR, SP, NBSP, U+1680, U+2000 to U+200A, LS, PS,
    U+202F, U+205F, U+3000 and U+FEFF. *)
Definition is_WhiteSpace (c : Z) : bool :=
  existsb (Z.eqb c)
          [9; 10; 11; 12; 13; 32; 160; 5760;
           8192; 8193; 8194; 8195; 8196; 8197; 8198; 8199; 8200; 8201; 8202;
           8232; 8233; 8239; 8287; 12288; 65279].

Fixpoint trimStart (s : JSString) : JSString :=
  match s with
  | [] => []
  | c :: rest => if is_WhiteSpace c then trimStart rest else s
  end.

Definition trimEnd (s : JSString) : JSString := rev (trimStart (rev s)).

(** [String.prototype.trim]. *)
Definition trim (s : JSString) : JSString := trimEnd (trimStart s).

(** [s.split(sep)] for a separator of one code unit: the pieces between
    the occurrences of the separator, the empty ones included. *)
Fixpoint String_split (sep : Z) (s : JSString) : list JSString :=
  match s with
  | [] => [[]]
  | c :: rest =>
      if c =? sep then [] :: String_split sep rest
      else match String_split sep rest with
           | piece :: pieces => (c :: piece) :: pieces
           | [] => [[c]]
           end
  end.

(** [parts.join(sep)]. *)
Fixpoint Array_join (sep : JSString) (parts : list JSString) : JSString :=
  match parts with
  | [] => []
  | [p] => p
  | p :: rest => p ++ sep ++ Array_join sep rest
  end.

Definition LINE_FEED : Z := 10.
Definition EQUALS_SIGN : Z := 61.

(** A string is truthy when it is not empty. *)
Definition truthy (s : JSString) : bool :=
  match s with [] => false | _ :: _ => true end.

(** [process.env] keeps the variables of the process, which are C
    strings. A JavaScript string handed to it is written as UTF-8, a lone
    surrogate becoming U+FFFD, and ends at its first U+0000; [c_string] is
    that text as it reads back. *)
Fixpoint until_NUL (s : JSString) : JSString :=
  match s with
  | [] => []
  | c :: rest => if c =? 0 then [] else c :: until_NUL rest
  end.

Definition c_string (s : JSString) : JSString :=
  flat_map utf16_units (scalar_values (until_NUL s)).

(** [process.env[key] = value]: [setenv] on the C strings of the name and
    of the value. A name that is empty or holds an equals sign is refused
    by [setenv], and the refusal is dropped. *)
Definition process_env_set (key value : JSString)
           (process_env : JSMap JSString) : JSMap JSString :=
  let name := c_string key in
  if truthy name && negb (existsb (Z.eqb EQUALS_SIGN) name)
  then Map_set name (c_string value) process_env
  else process_env.

(** The body of the loop over the lines of [.env], on [process.env]. *)
Definition dotenv_line (process_env : JSMap JSString) (line : JSString)
  : JSMap JSString :=
  let trimmed := trim line in
  if truthy trimmed && negb (startsWith trimmed (js "#")) then
    match String_split EQUALS_SIGN trimmed with
    | key :: valueParts =>
        let value := trim (Array_join (js "=") valueParts) in
        if truthy key && truthy value
        then process_env_set key value process_env
        else process_env
    | [] => process_env
    end
  else process_env.

(** The settings [loadNodeEnv] returns, but for [GEMINI_CLI_KV], which is
    the store constructed on the way. *)
Record Env : Type := mkEnvRecord {
  GCP_SERVICE_ACCOUNT : JSString;
  GEMINI_PROJECT_ID : option JSString;
  OPENAI_API_KEY : option JSString;
  ENABLE_FAKE_THINKING : option JSString;
  ENABLE_REAL_THINKING : option JSString;
  STREAM_THINKING_AS_CONTENT : option JSString;
  ENABLE_AUTO_MODEL_SWITCHING : option JSString;
  GEMINI_MODERATION_HARASSMENT_THRESHOLD : option JSString;
  GEMINI_MODERATION_HATE_SPEECH_THRESHOLD : option JSString;
  GEMINI_MODERATION_SEXUALLY_EXPLICIT_THRESHOLD : option JSString;
  GEMINI_MODERATION_DANGEROUS_CONTENT_THRESHOLD : option JSString;
  ENABLE_GEMINI_NATIVE_TOOLS : option JSString;
  ENABLE_GOOGLE_SEARCH : option JSString;
  ENABLE_URL_CONTEXT : option JSString;
  GEMINI_TOOLS_PRIORITY : option JSString;
  DEFAULT_TO_NATIVE_TOOLS : option JSString;
  ALLOW_REQUEST_TOOL_CONTROL : option JSString;
  ENABLE_INLINE_CITATIONS : option JSString;
  INCLUDE_GROUNDING_METADATA : option JSString;
  INCLUDE_SEARCH_ENTRY_POINT : option JSString
}.

(** What [loadNodeEnv] touches: [process.env], the text of the file
    [.env] when there is one, and the world of the store. *)
Record NodeWorld : Type := mkNodeWorld {
  process_env : JSMap JSString;
  dotenv_file : option JSString;
  kv_world : state
}.

(** [process.env.NAME || ""]. *)
Definition or_empty (v : option JSString) : JSString :=
  match v with
  | Some s => if truthy s then s else []
  | None => []
  end.

(** [process.env.NAME]. *)
Definition getenv (process_env : JSMap JSString) (name : string)
  : option JSString := Map_get (js name) process_env.

Definition loadNodeEnv (e : env) (w : NodeWorld) : completion Env * NodeWorld :=
  let process_env' :=
    match dotenv_file w with
    | Some envContent =>
        let envLines := String_split LINE_FEED envContent in
        fold_left dotenv_line envLines (process_env w)
    | None => process_env w
    end in
  match new_LocalKVStorage e (kv_world w) with
  | (Throw err, kv) => (Throw err, mkNodeWorld process_env' (dotenv_file w) kv)
  | (Normal _, kv) =>
      (Normal
         (mkEnvRecord
            (or_empty (getenv process_env' "GCP_SERVICE_ACCOUNT"))
            (getenv process_env' "GEMINI_PROJECT_ID")
            (getenv process_env' "OPENAI_API_KEY")
            (getenv process_env' "ENABLE_FAKE_THINKING")
            (getenv process_env' "ENABLE_REAL_THINKING")
            (getenv process_env' "STREAM_THINKING_AS_CONTENT")
            (getenv process_env' "ENABLE_AUTO_MODEL_SWITCHING")
            (getenv process_env' "GEMINI_MODERATION_HARASSMENT_THRESHOLD")
            (getenv process_env' "GEMINI_MODERATION_HATE_SPEECH_THRESHOLD")
            (getenv process_env' "GEMINI_MODERATION_SEXUALLY_EXPLICIT_THRESHOLD")
            (getenv process_env' "GEMINI_MODERATION_DANGEROUS_CONTENT_THRESHOLD")
            (getenv process_env' "ENABLE_GEMINI_NATIVE_TOOLS")
            (getenv process_env' "ENABLE_GOOGLE_SEARCH")
            (getenv process_env' "ENABLE_URL_CONTEXT")
            (getenv process_env' "GEMINI_TOOLS_PRIORITY")
            (getenv process_env' "DEFAULT_TO_NATIVE_TOOLS")
            (getenv process_env' "ALLOW_REQUEST_TOOL_CONTROL")
            (getenv process_env' "ENABLE_INLINE_CITATIONS")
            (getenv process_env' "INCLUDE_GROUNDING_METADATA")
            (getenv process_env' "INCLUDE_SEARCH_ENTRY_POINT")),
       mkNodeWorld process_env' (dotenv_file w) kv)
  end.

(** ** Notions used in the further statements *)

(** The map a call leaves, from the clock reading and the map it finds. *)
Definition data_after (c : Call) (t : Z) (m : JSMap Item) : JSMap Item :=
  match c with
  | call_get _ _ => live t m
  | call_list _ => live t m
  | call_put key v options =>
      Map_set key (mkItem (put_string v) (put_expiry t options)) m
  | call_delete key => Map_delete key m
  end.

(** Two calls that differ at most in whether the disk takes the write. *)
Definition same_but_disk (a b : env * Call) : Prop :=
  Date_now (fst a) = Date_now (fst b) /\ snd a = snd b.

(** A string without lone surrogates, all of whose code units are in
    range. *)
Fixpoint well_formed_utf16 (s : JSString) : bool :=
  match s with
  | [] => true
  | u :: rest =>
      if is_lead_surrogate u then
        match rest with
        | t :: rest' => is_trail_surrogate t && well_formed_utf16 rest'
        | [] => false
        end
      else negb (is_trail_surrogate u) && (0 <=? u) && (u <? 65536)
           && well_formed_utf16 rest
  end.

(** The line assigns [value] to the variable [key]: trimmed, it reads
    [key=rest], where [key] is not empty, holds no equals sign and does not
    begin with a hash, and [value] is [rest] trimmed and is not empty. *)
Definition dotenv_assigns (line key value : JSString) : Prop :=
  exists rest,
    trim line = key ++ EQUALS_SIGN :: rest /\
    ~ In EQUALS_SIGN key /\ key <> [] /\ startsWith key (js "#") = false /\
    value = trim rest /\ value <> [].

(** [process.env] after the loop of [loadNodeEnv] over the text of
    [.env]. *)
Definition dotenv_applied (envContent : JSString)
           (process_env : JSMap JSString) : JSMap JSString :=
  fold_left dotenv_line (String_split LINE_FEED envContent) process_env.

(** A code unit of the Basic Multilingual Plane that is neither U+0000
    nor a surrogate: a string of such units is its own C string. *)
Definition plain_unit (u : Z) : Prop :=
  0 < u < 55296 \/ 57343 < u < 65536.

(** The assignment the body of the loop makes for a line, if any. *)
Definition dotenv_entry (line : JSString) : option (JSString * JSString) :=
  let trimmed := trim line in
  if truthy trimmed && negb (startsWith trimmed (js "#")) then
    match String_split EQUALS_SIGN trimmed with
    | key :: valueParts =>
        let value := trim (Array_join (js "=") valueParts) in
        if truthy key && truthy value then Some (key, value) else None
    | [] => None
    end
  else None.

(** [!!env.OPENAI_API_KEY], as the root endpoint of the server computes
    whether requests must authenticate. *)
Definition requiresAuth (env : Env) : bool :=
  match OPENAI_API_KEY env with
  | Some key => truthy key
  | None => false
  end.

(** * Properties *)

(** ** Strings *)

Lemma str_eqb_refl (s : JSString) : str_eqb s s = true.
Proof.
  induction s as [|a s IH]; simpl; [reflexivity|].
  now rewrite Z.eqb_refl, IH.
Qed.

Lemma str_eqb_eq (s t : JSString) : str_eqb s t = true <-> s = t.
Proof.
  split.
  - revert t; induction s as [|a s IH]; intros [|b t] H; simpl in H;
      try discriminate; [reflexivity|].
    apply andb_true_iff in H as [Hab Hst].
    apply Z.eqb_eq in Hab. apply IH in Hst. now subst.
  - intros ->. apply str_eqb_refl.
Qed.

Lemma str_eqb_neq (s t : JSString) : str_eqb s t = false <-> s <> t.
Proof.
  rewrite <- str_eqb_eq. destruct (str_eqb s t); split; intro H;
    try discriminate; try reflexivity; try (intro; discriminate).
  now elim H.
Qed.

Lemma str_eqb_sym (s t : JSString) : str_eqb s t = str_eqb t s.
Proof.
  destruct (str_eqb s t) eqn:E.
  - apply str_eqb_eq in E. subst. symmetry. apply str_eqb_refl.
  - symmetry. apply str_eqb_neq. apply str_eqb_neq in E. congruence.
Qed.

Lemma startsWith_iff (s p : JSString) :
  startsWith s p = true <-> exists rest, s = p ++ rest.
Proof.
  revert s; induction p as [|c p IH]; intros s; simpl.
  - split; [intros _; now exists s | reflexivity].
  - destruct s as [|d s].
    + split; [discriminate | intros [rest H]; discriminate].
    + rewrite andb_true_iff, Z.eqb_eq, IH. split.
      * intros [-> [rest ->]]. now exists rest.
      * intros [rest H]. injection H as -> ->. split; [reflexivity|now exists rest].
Qed.

(** ** The map *)

Section JSMapFacts.
Context {V : Type}.
Implicit Types (m : JSMap V) (k : JSString) (v : V).

Lemma Map_get_In m k v : Map_get k m = Some v -> In (k, v) m.
Proof.
  induction m as [|[k' w] m IH]; simpl; [discriminate|].
  destruct (str_eqb k' k) eqn:E.
  - intros [= ->]. apply str_eqb_eq in E. subst. now left.
  - intros H. right. now apply IH.
Qed.

Lemma Map_get_None m k : Map_get k m = None <-> ~ In k (Map_keys m).
Proof.
  induction m as [|[k' w] m IH]; simpl.
  - split; [intros _ [] | reflexivity].
  - destruct (str_eqb k' k) eqn:E.
    + apply str_eqb_eq in E. split; [discriminate | intros H; elim H; now left].
    + apply str_eqb_neq in E. rewrite IH. split.
      * intros H [H1|H1]; [congruence | now apply H].
      * intros H H1. apply H. now right.
Qed.

Lemma In_Map_get m k v : Map_wf m -> In (k, v) m -> Map_get k m = Some v.
Proof.
  unfold Map_wf, Map_keys.
  induction m as [|[k' w] m IH]; simpl; intros Hwf Hin; [contradiction|].
  inversion Hwf as [|? ? Hnotin Hwf']; subst.
  destruct Hin as [[= -> ->]|Hin].
  - now rewrite str_eqb_refl.
  - destruct (str_eqb k' k) eqn:E.
    + apply str_eqb_eq in E. subst. elim Hnotin.
      change k with (fst (k, v)). now apply in_map.
    + now apply IH.
Qed.

Lemma Map_get_set_eq m k v : Map_get k (Map_set k v m) = Some v.
Proof.
  induction m as [|[k' w] m IH]; simpl.
  - now rewrite str_eqb_refl.
  - destruct (str_eqb k' k) eqn:E; simpl; rewrite E; [reflexivity|exact IH].
Qed.

Lemma Map_get_set_neq m k k' v :
  k <> k' -> Map_get k' (Map_set k v m) = Map_get k' m.
Proof.
  intros Hne. induction m as [|[k0 w] m IH]; simpl.
  - apply str_eqb_neq in Hne. now rewrite Hne.
  - destruct (str_eqb k0 k) eqn:E; simpl.
    + apply str_eqb_eq in E. subst k0.
      apply str_eqb_neq in Hne. now rewrite Hne.
    + now rewrite IH.
Qed.

Lemma Map_keys_set m k v :
  Map_keys (Map_set k v m) =
    if existsb (fun k' => str_eqb k' k) (Map_keys m)
    then Map_keys m else Map_keys m ++ [k].
Proof.
  induction m as [|[k' w] m IH]; simpl; [reflexivity|].
  destruct (str_eqb k' k) eqn:E; simpl; [reflexivity|].
  rewrite IH. now destruct (existsb _ _).
Qed.

Lemma existsb_str_eqb (l : list JSString) k :
  existsb (fun k' => str_eqb k' k) l = true <-> In k l.
Proof.
  rewrite existsb_exists. split.
  - intros [x [Hin E]]. apply str_eqb_eq in E. now subst.
  - intros Hin. exists k. split; [assumption|apply str_eqb_refl].
Qed.

Lemma Map_set_wf m k v : Map_wf m -> Map_wf (Map_set k v m).
Proof.
  unfold Map_wf. rewrite Map_keys_set. intros Hwf.
  destruct (existsb _ _) eqn:E; [assumption|].
  assert (Hnot : ~ In k (Map_keys m)).
  { intros Hin. apply existsb_str_eqb in Hin. congruence. }
  apply NoDup_incl_NoDup with (l := k :: Map_keys m).
  - now constructor.
  - rewrite length_app. simpl. lia.
  - intros x Hx. apply in_or_app. destruct Hx as [<-|Hx]; [right; now left|now left].
Qed.

Lemma filter_wf (f : JSString * V -> bool) m :
  Map_wf m -> Map_wf (filter f m).
Proof.
  unfold Map_wf, Map_keys.
  induction m as [|kv m IH]; simpl; intros Hwf; [constructor|].
  inversion Hwf as [|? ? Hnotin Hwf']; subst.
  destruct (f kv); simpl; [|now apply IH].
  constructor; [|now apply IH].
  intros Hin. apply Hnotin. apply in_map_iff in Hin as [x [Hx Hin]].
  apply filter_In in Hin as [Hin _]. rewrite <- Hx. now apply in_map.
Qed.

Lemma Map_delete_wf m k : Map_wf m -> Map_wf (Map_delete k m).
Proof. apply filter_wf. Qed.

Lemma Map_get_delete_eq m k : Map_get k (Map_delete k m) = None.
Proof.
  apply Map_get_None. unfold Map_delete, Map_keys. intros Hin.
  apply in_map_iff in Hin as [[k' w] [Hk Hin]]. simpl in Hk. subst k'.
  apply filter_In in Hin as [_ H]. simpl in H.
  now rewrite str_eqb_refl in H.
Qed.

Lemma Map_get_delete_neq m k k' :
  k <> k' -> Map_get k' (Map_delete k m) = Map_get k' m.
Proof.
  intros Hne. unfold Map_delete.
  induction m as [|[k0 w] m IH]; simpl; [reflexivity|].
  destruct (str_eqb k0 k) eqn:E; simpl.
  - apply str_eqb_eq in E. subst k0. apply str_eqb_neq in Hne.
    now rewrite Hne.
  - now rewrite IH.
Qed.

Lemma Map_delete_absent m k : Map_get k m = None -> Map_delete k m = m.
Proof.
  unfold Map_delete.
  induction m as [|[k0 w] m IH]; simpl; [reflexivity|].
  destruct (str_eqb k0 k) eqn:E; simpl; [discriminate|].
  intros H. now rewrite IH.
Qed.

(** Reading through a filter on the values. *)
Lemma Map_get_filter (p : V -> bool) m k :
  Map_wf m ->
  Map_get k (filter (fun kv => p (snd kv)) m) =
    match Map_get k m with
    | Some v => if p v then Some v else None
    | None => None
    end.
Proof.
  intros Hwf. destruct (Map_get k m) as [v|] eqn:Hget.
  - apply Map_get_In in Hget. destruct (p v) eqn:Hp.
    + apply In_Map_get; [now apply filter_wf|].
      apply filter_In. now split.
    + apply Map_get_None. intros Hin.
      apply in_map_iff in Hin as [[k' w] [Hk Hin]]. simpl in Hk. subst k'.
      apply filter_In in Hin as [Hin Hpw]. simpl in Hpw.
      apply (In_Map_get _ _ _ Hwf) in Hin.
      apply (In_Map_get _ _ _ Hwf) in Hget. congruence.
  - apply Map_get_None. apply Map_get_None in Hget. intros Hin. apply Hget.
    apply in_map_iff in Hin as [x [Hk Hin]].
    apply filter_In in Hin as [Hin _]. rewrite <- Hk. now apply in_map.
Qed.
End JSMapFacts.

(** ** Persisting and evicting *)

Lemma saveToDisk_run (e : env) (s : state) :
  LocalKVStorage.saveToDisk e s = (Normal tt, saved e s).
Proof.
  unfold LocalKVStorage.saveToDisk, try_catch, bind, this_data,
    fs_writeFileSync, console_log, saved, persisted.
  destruct s as [d dir f c]; simpl.
  destruct dir; simpl; [|reflexivity].
  destruct (fs_writable e); reflexivity.
Qed.

Lemma saved_data (e : env) (s : state) : data (saved e s) = data s.
Proof.
  unfold saved. destruct (negb (directory s)); [reflexivity|].
  destruct (fs_writable e); reflexivity.
Qed.

Lemma saved_directory (e : env) (s : state) :
  directory (saved e s) = directory s.
Proof.
  unfold saved. destruct (negb (directory s)); [reflexivity|].
  destruct (fs_writable e); reflexivity.
Qed.

Lemma filter_filter_and {A} (f g : A -> bool) (l : list A) :
  filter f (filter g l) = filter (fun x => g x && f x) l.
Proof.
  induction l as [|a l IH]; simpl; [reflexivity|].
  destruct (g a); simpl; [destruct (f a)|]; now rewrite IH.
Qed.

(** The loop of [cleanupExpired], whatever list of entries it walks: an
    entry of the map goes when the walk meets an expired entry under its
    key, and the flag is raised when the walk meets any expired entry. *)
Lemma cleanup_loop (t : Z) (l : list (JSString * Item)) (m : JSMap Item)
      (flag : bool) :
  fold_left (LocalKVStorage.cleanup_step t) l (m, flag) =
    (filter (fun kv =>
               negb (existsb (fun en => expired t (snd en)
                                        && str_eqb (fst kv) (fst en)) l)) m,
     flag || any_expired t l).
Proof.
  revert m flag. induction l as [|[k it] l IH]; intros m flag; simpl.
  - rewrite orb_false_r. f_equal.
    induction m as [|kv m IHm]; simpl; [reflexivity|now rewrite <- IHm].
  - unfold LocalKVStorage.cleanup_step at 2. simpl.
    destruct (expired t it) eqn:E; simpl; rewrite IH.
    + rewrite orb_true_r. f_equal. unfold Map_delete.
      rewrite filter_filter_and. apply filter_ext. intros kv.
      now rewrite negb_orb.
    + reflexivity.
Qed.

Lemma cleanup_loop_wf (t : Z) (m : JSMap Item) :
  Map_wf m ->
  fold_left (LocalKVStorage.cleanup_step t) (Map_entries m) (m, false) =
    (live t m, any_expired t m).
Proof.
  intros Hwf. unfold Map_entries. rewrite cleanup_loop. simpl. f_equal.
  unfold live. apply filter_ext_in. intros [k it] Hin. simpl. f_equal.
  destruct (expired t it) eqn:E.
  - apply existsb_exists. exists (k, it). simpl.
    now rewrite E, str_eqb_refl.
  - destruct (existsb _ m) eqn:Hex; [|reflexivity].
    apply existsb_exists in Hex as [[k' it'] [Hin' H]]. simpl in H.
    apply andb_true_iff in H as [Hexp Hk]. apply str_eqb_eq in Hk. subst k'.
    apply (In_Map_get _ _ _ Hwf) in Hin. apply (In_Map_get _ _ _ Hwf) in Hin'.
    congruence.
Qed.

Lemma cleanupExpired_run (e : env) (s : state) :
  Map_wf (data s) ->
  LocalKVStorage.cleanupExpired e s = (Normal tt, evicted e s).
Proof.
  intros Hwf. unfold LocalKVStorage.cleanupExpired, bind, now, this_data.
  rewrite (cleanup_loop_wf _ _ Hwf). unfold set_this_data, evicted, with_data.
  destruct (any_expired (Date_now e) (data s)).
  - apply saveToDisk_run.
  - reflexivity.
Qed.

Lemma evicted_data (e : env) (s : state) :
  data (evicted e s) = live (Date_now e) (data s).
Proof.
  unfold evicted. destruct (any_expired _ _); [rewrite saved_data|]; reflexivity.
Qed.

Lemma live_wf (t : Z) (m : JSMap Item) : Map_wf m -> Map_wf (live t m).
Proof. apply filter_wf. Qed.

Lemma Map_get_live (t : Z) (m : JSMap Item) (k : JSString) :
  Map_wf m ->
  Map_get k (live t m) =
    match Map_get k m with
    | Some it => if expired t it then None else Some it
    | None => None
    end.
Proof.
  intros Hwf. unfold live.
  rewrite (Map_get_filter (fun it => negb (expired t it)) m k Hwf).
  destruct (Map_get k m) as [it|]; [|reflexivity].
  now destruct (expired t it).
Qed.

(** ** What each method does *)

Lemma get_run (e : env) (s : state) (k : JSString) (type : option GetType) :
  Map_wf (data s) ->
  LocalKVStorage.get k type e s =
    (Normal match Map_get k (live (Date_now e) (data s)) with
            | Some it => render type it
            | None => null
            end,
     evicted e s).
Proof.
  intros Hwf. unfold LocalKVStorage.get, bind.
  rewrite (cleanupExpired_run _ _ Hwf). unfold this_data.
  rewrite evicted_data.
  destruct (Map_get k (live (Date_now e) (data s))) as [it|]; [|reflexivity].
  destruct type as [[]|]; reflexivity.
Qed.

Lemma put_run (e : env) (s : state) (k : JSString) (v : PutValue)
      (options : option PutOptions) :
  LocalKVStorage.put k v options e s =
    (Normal tt,
     saved e (with_data
                (Map_set k (mkItem (put_string v)
                                   (put_expiry (Date_now e) options))
                         (data s)) s)).
Proof.
  unfold LocalKVStorage.put, bind, this_data, set_this_data, with_data.
  destruct options as [[[ttl|]]|]; simpl;
    try (destruct (ttl =? 0)); simpl; apply saveToDisk_run.
Qed.

Lemma delete_run (e : env) (s : state) (k : JSString) :
  LocalKVStorage.delete k e s =
    (Normal tt, saved e (with_data (Map_delete k (data s)) s)).
Proof.
  unfold LocalKVStorage.delete, bind, this_data, set_this_data, with_data.
  apply saveToDisk_run.
Qed.

Lemma list_run (e : env) (s : state) (arg : ListArgument) :
  Map_wf (data s) ->
  LocalKVStorage.list arg e s =
    (Normal (mkListResult
               (map mkKey
                    (filter (fun key => falsy arg || startsWith key (ToString arg))
                            (Map_keys (live (Date_now e) (data s)))))),
     evicted e s).
Proof.
  intros Hwf. unfold LocalKVStorage.list, bind.
  rewrite (cleanupExpired_run _ _ Hwf). unfold this_data, ret.
  now rewrite evicted_data.
Qed.

Lemma put_data (e : env) (s : state) (k : JSString) (v : PutValue)
      (options : option PutOptions) :
  data (snd (LocalKVStorage.put k v options e s)) =
    Map_set k (mkItem (put_string v) (put_expiry (Date_now e) options)) (data s).
Proof. rewrite put_run. cbn [snd]. now rewrite saved_data. Qed.

Lemma delete_data (e : env) (s : state) (k : JSString) :
  data (snd (LocalKVStorage.delete k e s)) = Map_delete k (data s).
Proof. rewrite delete_run. cbn [snd]. now rewrite saved_data. Qed.

Lemma get_data (e : env) (s : state) (k : JSString) (type : option GetType) :
  Map_wf (data s) ->
  data (snd (LocalKVStorage.get k type e s)) = live (Date_now e) (data s).
Proof. intros Hwf. rewrite get_run by assumption. apply evicted_data. Qed.

Lemma list_data (e : env) (s : state) (arg : ListArgument) :
  Map_wf (data s) ->
  data (snd (LocalKVStorage.list arg e s)) = live (Date_now e) (data s).
Proof. intros Hwf. rewrite list_run by assumption. apply evicted_data. Qed.

(** Every call keeps the keys of the map distinct. *)
Lemma perform_wf (c : Call) (e : env) (s : state) :
  Map_wf (data s) -> Map_wf (data (perform c e s)).
Proof.
  intros Hwf. destruct c; simpl.
  - rewrite get_data by assumption. now apply live_wf.
  - rewrite put_data. now apply Map_set_wf.
  - rewrite delete_data. now apply Map_delete_wf.
  - rewrite list_data by assumption. now apply live_wf.
Qed.

Lemma run_wf (calls : list (env * Call)) (s : state) :
  Map_wf (data s) -> Map_wf (data (run calls s)).
Proof.
  revert s. induction calls as [|[e c] calls IH]; intros s Hwf; simpl;
    [assumption|]. apply IH. now apply perform_wf.
Qed.

(** ** Round trip of a value *)

(** C1. For every key k and every string v, put(k, v) without a time to
    live resolves, and a get(k) that follows it, with no type or with
    "text", at any clock reading and whether or not the disk took the
    write, resolves to v. *)
Theorem put_get_round_trip
        (s : state) (e1 e2 : env) (k v : JSString)
        (options : option PutOptions) (type : option GetType) :
  Map_wf (data s) -> no_ttl options -> text_requested type ->
  fst (LocalKVStorage.put k (StringValue v) options e1 s) = Normal tt /\
  fst (LocalKVStorage.get k type e2
         (snd (LocalKVStorage.put k (StringValue v) options e1 s)))
  = Normal (String_ v).
Proof.
  intros Hwf Hopt Hty. rewrite put_run. simpl. split; [reflexivity|].
  assert (Hexp : put_expiry (Date_now e1) options = None)
    by (destruct Hopt; subst; reflexivity).
  rewrite Hexp, get_run.
  - simpl. rewrite saved_data. simpl.
    rewrite Map_get_live by now apply Map_set_wf.
    rewrite Map_get_set_eq. simpl.
    destruct Hty; subst; reflexivity.
  - rewrite saved_data. simpl. now apply Map_set_wf.
Qed.

Lemma put_get_round_trip_witness :
  fst (LocalKVStorage.get (js "a") None (mkEnv 2000 true)
         (snd (LocalKVStorage.put (js "a") (StringValue (js "1")) None
                 (mkEnv 1000 true) empty_store)))
  = Normal (String_ (js "1")).
Proof.
  apply (put_get_round_trip empty_store (mkEnv 1000 true) (mkEnv 2000 true)
           (js "a") (js "1") None None).
  - constructor.
  - left; reflexivity.
  - left; reflexivity.
Defined.

(** ** Time to live *)




(** ** Delete *)

(** C7. For every key k, present or not, delete(k) resolves without an
    error and a get(k) that follows it resolves to null, whatever type is
    asked for; when k is absent the mapping is left as it was, and a second
    delete(k) changes nothing more. *)
Theorem delete_then_get_null
        (s : state) (e1 e2 e3 : env) (k : JSString) (type : option GetType) :
  Map_wf (data s) ->
  fst (LocalKVStorage.delete k e1 s) = Normal tt /\
  fst (LocalKVStorage.get k type e2 (snd (LocalKVStorage.delete k e1 s)))
  = Normal null /\
  (Map_get k (data s) = None ->
   data (snd (LocalKVStorage.delete k e1 s)) = data s) /\
  data (snd (LocalKVStorage.delete k e3 (snd (LocalKVStorage.delete k e1 s))))
  = data (snd (LocalKVStorage.delete k e1 s)).
Proof.
  intros Hwf. rewrite !delete_run. simpl. rewrite !saved_data. simpl.
  split; [reflexivity|]. split; [|split].
  - rewrite get_run by (rewrite saved_data; simpl; now apply Map_delete_wf).
    simpl. rewrite saved_data. simpl.
    rewrite Map_get_live by now apply Map_delete_wf.
    now rewrite Map_get_delete_eq.
  - apply Map_delete_absent.
  - apply Map_delete_absent, Map_get_delete_eq.
Qed.

Lemma delete_then_get_null_witness :
  fst (LocalKVStorage.get (js "a") None (mkEnv 2 true)
         (snd (LocalKVStorage.delete (js "a") (mkEnv 1 true) empty_store)))
  = Normal null.
Proof.
  apply (delete_then_get_null empty_store (mkEnv 1 true) (mkEnv 2 true)
           (mkEnv 3 true) (js "a") None).
  constructor.
Defined.

(** ** Listing *)

Lemma present_keys (key : JSString) (s : state) :
  present key s <-> In key (Map_keys (data s)).
Proof.
  unfold present. split.
  - intros [it H]. apply Map_get_In in H.
    change key with (fst (key, it)). now apply in_map.
  - intros Hin. destruct (Map_get key (data s)) as [it|] eqn:E.
    + now exists it.
    + apply Map_get_None in E. contradiction.
Qed.

(** A key is present after the eviction of a [get] or a [list] exactly
    when it was present with an item the eviction keeps. *)
Lemma present_after_eviction (e : env) (s : state) (key : JSString) :
  Map_wf (data s) ->
  present key (evicted e s) <->
  exists it, Map_get key (data s) = Some it /\ expired (Date_now e) it = false.
Proof.
  intros Hwf. unfold present. rewrite evicted_data, Map_get_live by assumption.
  destruct (Map_get key (data s)) as [it|].
  - destruct (expired (Date_now e) it) eqn:E; split.
    + intros [x H]; discriminate.
    + intros [x [[= <-] H]]. congruence.
    + intros _. now exists it.
    + intros _. now exists it.
  - split; [intros [x H]; discriminate | intros [x [H _]]; discriminate].
Qed.

Lemma mkKey_NoDup (l : list JSString) : NoDup l -> NoDup (map mkKey l).
Proof.
  induction 1 as [|k l Hnotin Hnd IH]; simpl; constructor; [|assumption].
  intros Hin. apply in_map_iff in Hin as [k' [[= ->] Hin]]. contradiction.
Qed.

Lemma expired_false_iff (t : Z) (it : Item) :
  expired t it = false <->
  expiry it = None \/ expiry it = Some 0 \/
  exists x, expiry it = Some x /\ t <= x.
Proof.
  unfold expired. destruct (expiry it) as [x|].
  - destruct (Z.eqb_spec x 0) as [->|Hx].
    + split; [intros _; right; now left|reflexivity].
    + rewrite Z.ltb_ge. split.
      * intros H. right; right. now exists x.
      * intros [H|[[= H]|(y & [= <-] & H)]];
          [discriminate|contradiction|exact H].
  - split; [intros _; now left|reflexivity].
Qed.

(** What list hands back, from the store it finds: for a string p, the
    descriptors, without repetition, of exactly the keys that start with p
    and whose item has no expiry, the expiry 0, or an expiry that is not
    before the clock reading; without argument, those of all such keys. *)
Lemma list_keys_after_eviction (s : state) (e : env) (p : JSString) :
  Map_wf (data s) ->
  exists ks ks_all,
    fst (LocalKVStorage.list (StringArgument p) e s)
    = Normal (mkListResult ks) /\
    fst (LocalKVStorage.list Undefined e s) = Normal (mkListResult ks_all) /\
    NoDup ks /\ NoDup ks_all /\
    (forall key,
        In (mkKey key) ks <->
        (exists it, Map_get key (data s) = Some it /\
                    (expiry it = None \/ expiry it = Some 0 \/
                     exists x, expiry it = Some x /\ Date_now e <= x)) /\
        exists rest, key = p ++ rest) /\
    (forall key,
        In (mkKey key) ks_all <->
        exists it, Map_get key (data s) = Some it /\
                   (expiry it = None \/ expiry it = Some 0 \/
                    exists x, expiry it = Some x /\ Date_now e <= x)).
Proof.
  intros Hwf. rewrite !list_run by assumption. cbn [fst snd].
  eexists; eexists. split; [reflexivity|]. split; [reflexivity|].
  assert (Hnd : NoDup (Map_keys (live (Date_now e) (data s))))
    by now apply live_wf.
  assert (Hkept : forall key,
             In key (Map_keys (live (Date_now e) (data s))) <->
             exists it, Map_get key (data s) = Some it /\
                        (expiry it = None \/ expiry it = Some 0 \/
                         exists x, expiry it = Some x /\ Date_now e <= x)).
  { intros key. rewrite <- evicted_data, <- present_keys.
    rewrite present_after_eviction by assumption.
    split; intros (it & Hget & H); exists it; (split; [exact Hget|]);
      now apply expired_false_iff. }
  split; [|split; [|split]].
  - apply mkKey_NoDup, NoDup_filter, Hnd.
  - apply mkKey_NoDup, NoDup_filter, Hnd.
  - intros key. rewrite <- Hkept, <- startsWith_iff.
    rewrite in_map_iff. split.
    + intros [k' [[= ->] Hin]]. apply filter_In in Hin as [Hin Hf].
      split; [assumption|]. simpl in Hf. destruct p; [reflexivity|exact Hf].
    + intros [Hin Hp]. exists key. split; [reflexivity|].
      apply filter_In. split; [assumption|]. simpl. rewrite Hp.
      apply orb_true_r.
  - intros key. rewrite <- Hkept, in_map_iff. split.
    + intros [k' [[= ->] Hin]]. now apply filter_In in Hin as [Hin _].
    + intros Hin. exists key. split; [reflexivity|].
      apply filter_In. now split.
Qed.


Lemma two_sessions_wf : Map_wf (data two_sessions).
Proof.
  unfold Map_wf. simpl. constructor.
  - intros [H|[]]. discriminate H.
  - constructor; [intros []|constructor].
Qed.

(** ** Zero and negative times to live *)

(** A time to live of 0 is falsy: the item gets no expiry, and a get at
    any later clock reading resolves to the value. *)
Lemma zero_ttl_never_expires
      (s : state) (e1 e2 : env) (k v : JSString) :
  Map_wf (data s) ->
  Map_get k (data (snd (LocalKVStorage.put k (StringValue v) (with_ttl 0) e1 s)))
  = Some (mkItem v None) /\
  fst (LocalKVStorage.get k None e2
         (snd (LocalKVStorage.put k (StringValue v) (with_ttl 0) e1 s)))
  = Normal (String_ v).
Proof.
  intros Hwf. rewrite put_data. cbn [put_expiry with_ttl Z.eqb put_string].
  split; [apply Map_get_set_eq|].
  rewrite get_run by (rewrite put_data; now apply Map_set_wf).
  cbn [fst]. rewrite put_data. cbn [put_expiry with_ttl Z.eqb put_string].
  rewrite Map_get_live by now apply Map_set_wf.
  now rewrite Map_get_set_eq.
Qed.

(** A negative time to live gives an expiry before the clock reading of
    the put; unless that expiry is the epoch itself, a get at the same or a
    later reading evicts the item and resolves to null. *)
Lemma negative_ttl_evicted
      (s : state) (e1 e2 : env) (k v : JSString) (t : Z) :
  Map_wf (data s) -> t < 0 -> Date_now e1 + t * 1000 <> 0 ->
  Date_now e1 <= Date_now e2 ->
  fst (LocalKVStorage.get k None e2
         (snd (LocalKVStorage.put k (StringValue v) (with_ttl t) e1 s)))
  = Normal null /\
  Map_get k (data (snd (LocalKVStorage.get k None e2
         (snd (LocalKVStorage.put k (StringValue v) (with_ttl t) e1 s)))))
  = None.
Proof.
  intros Hwf Ht Hne Hle.
  assert (Hexp : put_expiry (Date_now e1) (with_ttl t)
                 = Some (Date_now e1 + t * 1000)).
  { simpl. destruct (Z.eqb_spec t 0); [lia|reflexivity]. }
  rewrite get_run by (rewrite put_data; now apply Map_set_wf).
  cbn [fst snd]. rewrite evicted_data, put_data, Hexp. cbn [put_string].
  rewrite Map_get_live by now apply Map_set_wf.
  rewrite Map_get_set_eq. unfold expired. cbn [expiry].
  destruct (Z.eqb_spec (Date_now e1 + t * 1000) 0); [contradiction|].
  destruct (Z.ltb_spec (Date_now e1 + t * 1000) (Date_now e2)); [|lia].
  split; reflexivity.
Qed.

(** What a get or a list hands back was present with an item the eviction
    kept: either without expiry, or with expiry 0, or with an expiry that
    is not before the clock reading. *)
Lemma get_returns_kept_item
      (s : state) (e : env) (k : JSString) (type : option GetType)
      (r : GetResult) :
  Map_wf (data s) ->
  fst (LocalKVStorage.get k type e s) = Normal r -> r <> null ->
  exists it, Map_get k (data s) = Some it /\ r = render type it /\
             (expiry it = None \/ expiry it = Some 0 \/
              exists x, expiry it = Some x /\ Date_now e <= x).
Proof.
  intros Hwf. rewrite get_run by assumption. cbn [fst].
  rewrite Map_get_live by assumption.
  destruct (Map_get k (data s)) as [it|]; [|intros [= <-] Hr; now elim Hr].
  unfold expired. destruct (expiry it) as [x|] eqn:Ex.
  - destruct (Z.eqb_spec x 0) as [Hx|Hx].
    + intros [= <-] _. exists it. subst x. auto.
    + destruct (Z.ltb_spec x (Date_now e)) as [Hlt|Hge].
      * intros [= <-] Hr; now elim Hr.
      * intros [= <-] _. exists it. repeat split; auto.
        right; right. exists x. split; [exact Ex|lia].
  - intros [= <-] _. exists it. auto.
Qed.

(** C4, at the input where the code departs from it. The store is the
    one constructed on an absent file; after the put, the item stored in
    [epoch_expiry_store] has expiry 0, long past at clock reading
    1750927764000; a list and a get at that reading still hand it back,
    and it stays in the mapping and in the file after them. *)
Theorem expired_at_epoch_is_returned :
  snd (new_LocalKVStorage (mkEnv 1750927763000 true)
         (mkState Map_empty false None [])) = empty_store /\
  Map_get (js "k") (data epoch_expiry_store) = Some (mkItem (js "v") (Some 0)) /\
  fst (LocalKVStorage.list Undefined (mkEnv 1750927764000 true)
         epoch_expiry_store)
  = Normal (mkListResult [mkKey (js "k")]) /\
  LocalKVStorage.get (js "k") None (mkEnv 1750927764000 true)
    epoch_expiry_store
  = (Normal (String_ (js "v")), epoch_expiry_store) /\
  file epoch_expiry_store
  = Some (JsonObject [(js "k", mkItem (js "v") (Some 0))]).
Proof. repeat split. Qed.

(** C10, at the input where the code departs from it. The time to live is
    negative and the expiry stored, 0, lies before the clock reading of
    the put; yet a get at any clock reading resolves to the value. *)
Theorem negative_ttl_epoch_expiry_kept (e2 : env) :
  0 < Date_now (mkEnv 1750927763000 true) /\
  fst (LocalKVStorage.get (js "k") None e2
         (snd (LocalKVStorage.put (js "k") (StringValue (js "v"))
                 (with_ttl (-1750927763)) (mkEnv 1750927763000 true)
                 empty_store)))
  = Normal (String_ (js "v")).
Proof.
  split; [reflexivity|].
  rewrite get_run by (vm_compute; repeat constructor; intros []).
  reflexivity.
Qed.

(** ** The interface [KVNamespace] *)

(** C5, at the input where the code departs from it: a store holding the
    key "oauth:token", listed through the interface with
    {prefix: "oauth:"} and with {}. The code answers with no key at all,
    the prescribed listing holds the key both times. *)
Theorem list_through_interface_differs (e : env) :
  fst (KVNamespace_list (Some (mkListOptions (Some (js "oauth:")))) e one_token)
  = Normal (mkListResult []) /\
  prescribed_keys (Some (mkListOptions (Some (js "oauth:")))) (data one_token)
  = [mkKey (js "oauth:token")] /\
  fst (KVNamespace_list (Some (mkListOptions None)) e one_token)
  = Normal (mkListResult []) /\
  prescribed_keys (Some (mkListOptions None)) (data one_token)
  = [mkKey (js "oauth:token")].
Proof.
  unfold KVNamespace_list.
  rewrite !list_run by (vm_compute; repeat constructor; intros []).
  repeat split.
Qed.

(** ** Own-property order, [Object.fromEntries] and [new Map] *)

Section OrderFacts.
Context {V : Type}.
Implicit Types (o m l : list (JSString * V)).











Lemma fold_Map_set_wf l acc :
  Map_wf acc ->
  Map_wf (fold_left (fun m kv => Map_set (fst kv) (snd kv) m) l acc).
Proof.
  revert acc. induction l as [|[k v] l IH]; intros acc Hwf; simpl;
    [assumption|]. apply IH. now apply Map_set_wf.
Qed.

(** [new Map(entries)] has distinct keys, whatever the entries. *)
Lemma Map_of_entries_wf l : Map_wf (Map_of_entries l).
Proof. apply fold_Map_set_wf. constructor. Qed.
End OrderFacts.

(** ** Construction *)

Lemma constructor_run (e : env) (w : state) :
  new_LocalKVStorage e w =
    (Normal tt,
     match file w with
     | None => mkState Map_empty true None (console w)
     | Some NotJson =>
         mkState Map_empty true (Some NotJson)
                 (console w ++ [warn_Failed_to_load SyntaxError])
     | Some (JsonObject members) =>
         mkState (loaded members) true (Some (JsonObject members)) (console w)
     end).
Proof.
  unfold new_LocalKVStorage, LocalKVStorage.constructor,
    LocalKVStorage.ensureStorageDirectory, LocalKVStorage.loadFromDisk,
    bind, try_catch, set_this_data, fs_existsSync_dir, fs_mkdirSync,
    fs_existsSync, fs_readFileSync, lift, console_log, ret, loaded.
  destruct w as [d dir f c]. simpl.
  destruct dir, f as [[|members]|]; reflexivity.
Qed.

Lemma loaded_wf (members : list (JSString * Item)) : Map_wf (loaded members).
Proof. apply Map_of_entries_wf. Qed.

Lemma constructor_wf (e : env) (w : state) :
  Map_wf (data (snd (new_LocalKVStorage e w))).
Proof.
  rewrite constructor_run. cbn [snd].
  destruct (file w) as [[|members]|]; simpl;
    [constructor | apply loaded_wf | constructor].
Qed.


(** Every store reached from a constructed one has distinct keys. *)
Lemma reachable_wf (e : env) (w : state) (calls : list (env * Call)) :
  Map_wf (data (run calls (snd (new_LocalKVStorage e w)))).
Proof. apply run_wf, constructor_wf. Qed.

(** C8. Whatever directory, console and earlier map the world has,
    constructing a store never throws: on an absent file it starts with an
    empty mapping and logs nothing; on a file that is not valid JSON it
    logs the warning and starts with an empty mapping; and on any file
    the store it leaves is usable, its map well formed and a put followed
    by a get answering with the value put. *)
Theorem construction_never_fails
        (e : env) (d : JSMap Item) (dir : bool) (c : list LogLine) :
  new_LocalKVStorage e (mkState d dir None c)
  = (Normal tt, mkState Map_empty true None c) /\
  new_LocalKVStorage e (mkState d dir (Some NotJson) c)
  = (Normal tt,
     mkState Map_empty true (Some NotJson)
             (c ++ [warn_Failed_to_load SyntaxError])) /\
  (forall f : option FileContent,
      fst (new_LocalKVStorage e (mkState d dir f c)) = Normal tt /\
      Map_wf (data (snd (new_LocalKVStorage e (mkState d dir f c)))) /\
      forall (e1 e2 : env) (k v : JSString),
        fst (LocalKVStorage.get k None e2
               (snd (LocalKVStorage.put k (StringValue v) None e1
                       (snd (new_LocalKVStorage e (mkState d dir f c))))))
        = Normal (String_ v)).
Proof.
  split; [apply constructor_run|]. split; [apply constructor_run|].
  intros f. split; [now rewrite constructor_run|].
  pose proof (constructor_wf e (mkState d dir f c)) as Hwf.
  split; [exact Hwf|]. intros e1 e2 k v.
  rewrite get_run by (rewrite put_data; now apply Map_set_wf).
  cbn [fst]. rewrite put_data. cbn [put_expiry put_string].
  rewrite Map_get_live by now apply Map_set_wf.
  now rewrite Map_get_set_eq.
Qed.

(** ** Durability across a restart *)



Lemma live_none_expired (t : Z) (m : JSMap Item) :
  any_expired t m = false -> live t m = m.
Proof.
  unfold any_expired, live. induction m as [|kv m IH]; simpl; [reflexivity|].
  intros H. apply orb_false_iff in H as [H1 H2].
  now rewrite H1, IH.
Qed.







(** ** UTF-8: decoding what the encoder produced *)

Ltac arith := Z.div_mod_to_equations; lia.

Lemma Z_of_byte_of_Z (z : Z) : 0 <= z < 256 -> Z_of_byte (byte_of_Z z) = z.
Proof.
  intros Hz. unfold Z_of_byte, byte_of_Z.
  destruct (Byte.of_N (Z.to_N z)) as [b|] eqn:E.
  - apply Byte.to_of_N in E. rewrite E. lia.
  - apply Byte.of_N_None_iff in E. lia.
Qed.

Lemma byte_of_Z_of_byte (b : Byte.byte) : byte_of_Z (Z_of_byte b) = b.
Proof.
  unfold Z_of_byte, byte_of_Z. rewrite N2Z.id. now rewrite Byte.of_to_N.
Qed.

Lemma utf8_encode_cp_bytes (c : Z) :
  is_scalar c -> Forall (fun b => 0 <= b < 256) (utf8_encode_cp c).
Proof.
  intros Hc. unfold is_scalar in Hc. unfold utf8_encode_cp.
  destruct (Z.leb_spec c 127); [repeat constructor; lia|].
  destruct (Z.leb_spec c 2047); [repeat constructor; arith|].
  destruct (Z.leb_spec c 65535); repeat constructor; arith.
Qed.

Lemma utf8_encode_bytes (cps : list Z) :
  Forall is_scalar cps -> Forall (fun b => 0 <= b < 256) (utf8_encode cps).
Proof.
  unfold utf8_encode. induction 1 as [|c cps Hc _ IH]; simpl; [constructor|].
  apply Forall_app. split; [now apply utf8_encode_cp_bytes|exact IH].
Qed.

Lemma map_Z_of_byte_of_Z (l : list Z) :
  Forall (fun b => 0 <= b < 256) l -> map Z_of_byte (map byte_of_Z l) = l.
Proof.
  induction 1 as [|b l Hb _ IH]; simpl; [reflexivity|].
  now rewrite Z_of_byte_of_Z, IH.
Qed.

(** The lead bytes of the sequences of two, three and four bytes. *)
Lemma utf8_lead_2 (b : Z) :
  194 <= b <= 223 -> utf8_lead b = ([], Pending (b mod 32) 1 128 191).
Proof.
  intros Hb. unfold utf8_lead.
  destruct (Z.leb_spec b 127); [lia|].
  destruct (Z.leb_spec 194 b); [|lia].
  destruct (Z.leb_spec b 223); [reflexivity|lia].
Qed.

Lemma utf8_lead_3 (b : Z) :
  224 <= b <= 239 ->
  utf8_lead b = ([], Pending (b mod 16) 2 (if b =? 224 then 160 else 128)
                                          (if b =? 237 then 159 else 191)).
Proof.
  intros Hb. unfold utf8_lead.
  destruct (Z.leb_spec b 127); [lia|].
  destruct (Z.leb_spec 194 b); [|lia].
  destruct (Z.leb_spec b 223); [lia|]. cbn [andb].
  destruct (Z.leb_spec 224 b); [|lia].
  destruct (Z.leb_spec b 239); [reflexivity|lia].
Qed.

Lemma utf8_lead_4 (b : Z) :
  240 <= b <= 244 ->
  utf8_lead b = ([], Pending (b mod 8) 3 (if b =? 240 then 144 else 128)
                                         (if b =? 244 then 143 else 191)).
Proof.
  intros Hb. unfold utf8_lead.
  destruct (Z.leb_spec b 127); [lia|].
  destruct (Z.leb_spec 194 b); [|lia].
  destruct (Z.leb_spec b 223); [lia|]. cbn [andb].
  destruct (Z.leb_spec 224 b); [|lia].
  destruct (Z.leb_spec b 239); [lia|]. cbn [andb].
  destruct (Z.leb_spec 240 b); [|lia].
  destruct (Z.leb_spec b 244); [reflexivity|lia].
Qed.

(** A continuation byte within the bounds is taken into the code point. *)
Lemma utf8_decode_continue (cp needed lower upper b : Z) (rest : list Z) :
  lower <= b <= upper ->
  utf8_decode (Pending cp needed lower upper) (b :: rest) =
    if needed =? 1 then (cp * 64 + b mod 64) :: utf8_decode Start rest
    else utf8_decode (Pending (cp * 64 + b mod 64) (needed - 1) 128 191) rest.
Proof.
  intros Hb. cbn [utf8_decode].
  destruct (Z.leb_spec lower b); [|lia].
  destruct (Z.leb_spec b upper); [reflexivity|lia].
Qed.

Lemma utf8_decode_lead (b : Z) (rest : list Z) :
  utf8_decode Start (b :: rest) =
    fst (utf8_lead b) ++ utf8_decode (snd (utf8_lead b)) rest.
Proof. cbn [utf8_decode]. now destruct (utf8_lead b). Qed.

Lemma utf8_decode_encode_cp (c : Z) (rest : list Z) :
  is_scalar c ->
  utf8_decode Start (utf8_encode_cp c ++ rest) = c :: utf8_decode Start rest.
Proof.
  intros Hc. unfold is_scalar in Hc. unfold utf8_encode_cp.
  destruct (Z.leb_spec c 127) as [H1|H1].
  - cbn [app]. rewrite utf8_decode_lead. unfold utf8_lead.
    destruct (Z.leb_spec c 127); [reflexivity|lia].
  - destruct (Z.leb_spec c 2047) as [H2|H2].
    + cbn [app]. rewrite utf8_decode_lead, utf8_lead_2 by arith.
      cbn [fst snd app]. rewrite utf8_decode_continue by arith.
      change (1 =? 1) with true. cbv iota. f_equal. arith.
    + destruct (Z.leb_spec c 65535) as [H3|H3].
      * cbn [app]. rewrite utf8_decode_lead, utf8_lead_3 by arith.
        cbn [fst snd app]. rewrite utf8_decode_continue.
        -- change (2 =? 1) with false. cbv iota. change (2 - 1) with 1.
           rewrite utf8_decode_continue by arith.
           change (1 =? 1) with true. cbv iota. f_equal. arith.
        -- destruct (Z.eqb_spec (224 + c / 4096) 224);
             destruct (Z.eqb_spec (224 + c / 4096) 237); arith.
      * cbn [app]. rewrite utf8_decode_lead, utf8_lead_4 by arith.
        cbn [fst snd app]. rewrite utf8_decode_continue.
        -- change (3 =? 1) with false. cbv iota. change (3 - 1) with 2.
           rewrite utf8_decode_continue by arith.
           change (2 =? 1) with false. cbv iota. change (2 - 1) with 1.
           rewrite utf8_decode_continue by arith.
           change (1 =? 1) with true. cbv iota. f_equal. arith.
        -- destruct (Z.eqb_spec (240 + c / 262144) 240);
             destruct (Z.eqb_spec (240 + c / 262144) 244); arith.
Qed.

Lemma utf8_decode_encode (cps : list Z) :
  Forall is_scalar cps -> utf8_decode Start (utf8_encode cps) = cps.
Proof.
  unfold utf8_encode. induction 1 as [|c cps Hc _ IH]; cbn [flat_map];
    [reflexivity|].
  now rewrite utf8_decode_encode_cp, IH.
Qed.

(** ** UTF-16: the scalar values of the code units of scalar values *)

Lemma scalar_values_units (c : Z) (rest : JSString) :
  is_scalar c ->
  scalar_values (utf16_units c ++ rest) = c :: scalar_values rest.
Proof.
  intros Hc. unfold is_scalar in Hc. unfold utf16_units.
  destruct (Z.ltb_spec c 65536) as [H|H]; cbn [app scalar_values];
    unfold is_lead_surrogate, is_trail_surrogate.
  - destruct (Z.leb_spec 55296 c), (Z.leb_spec c 56319); cbn [andb];
      try lia; destruct (Z.leb_spec 56320 c), (Z.leb_spec c 57343);
      cbn [andb]; try lia; reflexivity.
  - destruct (Z.leb_spec 55296 (55296 + (c - 65536) / 1024)); [|arith].
    destruct (Z.leb_spec (55296 + (c - 65536) / 1024) 56319); [|arith].
    cbn [andb].
    destruct (Z.leb_spec 56320 (56320 + (c - 65536) mod 1024)); [|arith].
    destruct (Z.leb_spec (56320 + (c - 65536) mod 1024) 57343); [|arith].
    cbn [andb]. f_equal. arith.
Qed.

Lemma scalar_values_utf16 (cps : list Z) :
  Forall is_scalar cps -> scalar_values (flat_map utf16_units cps) = cps.
Proof.
  induction 1 as [|c cps Hc _ IH]; cbn [flat_map]; [reflexivity|].
  now rewrite scalar_values_units, IH.
Qed.

Lemma strip_BOM_id (cps : list Z) :
  hd_error cps <> Some BOM -> strip_BOM cps = cps.
Proof.
  destruct cps as [|c cps]; simpl; [reflexivity|]. intros H.
  destruct (Z.eqb_spec c BOM); [subst; now elim H|reflexivity].
Qed.

(** Decoding the UTF-8 buffer of a text and encoding the string again
    gives the buffer back, unless the text begins with U+FEFF. *)
Lemma encode_decode_utf8_buffer (cps : list Z) :
  Forall is_scalar cps -> hd_error cps <> Some BOM ->
  TextEncoder_encode (TextDecoder_decode (utf8_buffer cps)) = utf8_buffer cps.
Proof.
  intros Hsc Hbom. unfold TextEncoder_encode, TextDecoder_decode, utf8_buffer.
  rewrite map_Z_of_byte_of_Z by now apply utf8_encode_bytes.
  rewrite utf8_decode_encode by assumption.
  rewrite strip_BOM_id by assumption.
  now rewrite scalar_values_utf16.
Qed.

(** C2, as the code has it. For every byte buffer b that is the UTF-8
    encoding of a sequence of Unicode scalar values not beginning with
    U+FEFF, put(k, b) followed by get(k, "arrayBuffer") resolves to a
    buffer with the bytes of b. *)
Theorem buffer_round_trip_well_formed
        (s : state) (e1 e2 : env) (k : JSString) (cps : list Z) :
  Map_wf (data s) -> Forall is_scalar cps -> hd_error cps <> Some BOM ->
  fst (LocalKVStorage.get k (Some arrayBuffer) e2
         (snd (LocalKVStorage.put k (BufferValue (utf8_buffer cps)) None e1 s)))
  = Normal (ArrayBuffer_ (utf8_buffer cps)).
Proof.
  intros Hwf Hsc Hbom.
  rewrite get_run by (rewrite put_data; now apply Map_set_wf).
  cbn [fst]. rewrite put_data. cbn [put_expiry put_string].
  rewrite Map_get_live by now apply Map_set_wf.
  rewrite Map_get_set_eq. cbn [expired expiry render value].
  now rewrite encode_decode_utf8_buffer.
Qed.

(** The text "A", U+00E9, U+20AC, U+1F600 and its ten bytes. *)
Lemma buffer_round_trip_well_formed_witness :
  utf8_buffer [65; 233; 8364; 128512]
  = [Byte.x41; Byte.xc3; Byte.xa9; Byte.xe2; Byte.x82; Byte.xac;
     Byte.xf0; Byte.x9f; Byte.x98; Byte.x80] /\
  fst (LocalKVStorage.get (js "k") (Some arrayBuffer) (mkEnv 2000 true)
         (snd (LocalKVStorage.put (js "k")
                 (BufferValue (utf8_buffer [65; 233; 8364; 128512])) None
                 (mkEnv 1000 true) empty_store)))
  = Normal (ArrayBuffer_ (utf8_buffer [65; 233; 8364; 128512])).
Proof.
  split; [reflexivity|].
  apply (buffer_round_trip_well_formed empty_store (mkEnv 1000 true)
           (mkEnv 2000 true) (js "k") [65; 233; 8364; 128512]).
  - constructor.
  - repeat constructor; unfold is_scalar; lia.
  - simpl. discriminate.
Defined.

(** C2 as stated fails on a buffer that is not well-formed UTF-8: the
    single byte FF is decoded to U+FFFD, and the buffer read back holds
    the three bytes EF BF BD. *)
Lemma buffer_round_trip_invalid_byte :
  fst (LocalKVStorage.get (js "k") (Some arrayBuffer) (mkEnv 2000 true)
         (snd (LocalKVStorage.put (js "k") (BufferValue [Byte.xff]) None
                 (mkEnv 1000 true) empty_store)))
  = Normal (ArrayBuffer_ [Byte.xef; Byte.xbf; Byte.xbd]) /\
  fst (LocalKVStorage.get (js "k") (Some arrayBuffer) (mkEnv 2000 true)
         (snd (LocalKVStorage.put (js "k") (BufferValue [Byte.xff]) None
                 (mkEnv 1000 true) empty_store)))
  <> Normal (ArrayBuffer_ [Byte.xff]).
Proof. split; [reflexivity|]. vm_compute. discriminate. Qed.

(** A well-formed buffer that begins with the byte order mark loses it:
    EF BB BF 41 is read back as 41. *)
Lemma buffer_round_trip_drops_BOM :
  fst (LocalKVStorage.get (js "k") (Some arrayBuffer) (mkEnv 2000 true)
         (snd (LocalKVStorage.put (js "k")
                 (BufferValue [Byte.xef; Byte.xbb; Byte.xbf; Byte.x41]) None
                 (mkEnv 1000 true) empty_store)))
  = Normal (ArrayBuffer_ [Byte.x41]).
Proof. reflexivity. Qed.

(** * Further properties of the store *)

(** ** Other keys *)

(** X1. A put or a delete on key k leaves the answer of get for every
    other key as it was, for every type and clock reading. *)
Theorem other_keys_untouched
        (s : state) (e1 e2 : env) (k k' : JSString) (v : PutValue)
        (options : option PutOptions) (type : option GetType) :
  Map_wf (data s) -> k <> k' ->
  fst (LocalKVStorage.get k' type e2
         (snd (LocalKVStorage.put k v options e1 s)))
  = fst (LocalKVStorage.get k' type e2 s) /\
  fst (LocalKVStorage.get k' type e2 (snd (LocalKVStorage.delete k e1 s)))
  = fst (LocalKVStorage.get k' type e2 s).
Proof.
  intros Hwf Hne. split.
  - rewrite !get_run by (try rewrite put_data; try apply Map_set_wf; assumption).
    cbn [fst]. rewrite put_data.
    rewrite !Map_get_live by (try apply Map_set_wf; assumption).
    now rewrite Map_get_set_neq.
  - rewrite !get_run
      by (try rewrite delete_data; try apply Map_delete_wf; assumption).
    cbn [fst]. rewrite delete_data.
    rewrite !Map_get_live by (try apply Map_delete_wf; assumption).
    now rewrite Map_get_delete_neq.
Qed.

Lemma other_keys_untouched_witness :
  fst (LocalKVStorage.get (js "token") None (mkEnv 100 true)
         (snd (LocalKVStorage.put (js "session:1") (StringValue (js "z")) None
                 (mkEnv 50 true) two_sessions)))
  = fst (LocalKVStorage.get (js "token") None (mkEnv 100 true) two_sessions).
Proof.
  apply (other_keys_untouched two_sessions (mkEnv 50 true) (mkEnv 100 true)
           (js "session:1") (js "token") (StringValue (js "z")) None None).
  - apply two_sessions_wf.
  - discriminate.
Defined.

(** ** Writes that fail *)

(** X2. When the file system refuses the write, put and delete still
    resolve normally: the file is left as it was, one error line is
    logged, and the map in memory holds the change. *)
Theorem failed_write_is_absorbed
        (s : state) (e : env) (k : JSString) (v : PutValue)
        (options : option PutOptions) :
  directory s = true -> fs_writable e = false ->
  LocalKVStorage.put k v options e s
  = (Normal tt,
     mkState (Map_set k (mkItem (put_string v)
                                (put_expiry (Date_now e) options)) (data s))
             true (file s)
             (console s ++ [error_Failed_to_save EACCES])) /\
  LocalKVStorage.delete k e s
  = (Normal tt,
     mkState (Map_delete k (data s)) true (file s)
             (console s ++ [error_Failed_to_save EACCES])).
Proof.
  intros Hdir Hw. rewrite put_run, delete_run. unfold saved, with_data.
  cbn [data directory file console]. rewrite Hdir, Hw. cbn [negb].
  split; reflexivity.
Qed.

Lemma failed_write_is_absorbed_witness :
  LocalKVStorage.delete (js "token") (mkEnv 7 false) two_sessions
  = (Normal tt,
     mkState (Map_delete (js "token") (data two_sessions)) true
             (file two_sessions)
             (console two_sessions ++ [error_Failed_to_save EACCES])).
Proof.
  apply (failed_write_is_absorbed two_sessions (mkEnv 7 false) (js "token")
           (StringValue (js "x")) None); reflexivity.
Defined.

(** X3. When the write goes through, the file a put or a delete leaves is
    the snapshot of the whole map as it stands after the call, whatever
    the file held before. *)
Theorem successful_write_is_full_snapshot
        (s : state) (e : env) (k : JSString) (v : PutValue)
        (options : option PutOptions) :
  directory s = true -> fs_writable e = true ->
  file (snd (LocalKVStorage.put k v options e s))
  = Some (persisted (data (snd (LocalKVStorage.put k v options e s)))) /\
  file (snd (LocalKVStorage.delete k e s))
  = Some (persisted (data (snd (LocalKVStorage.delete k e s)))) /\
  console (snd (LocalKVStorage.put k v options e s)) = console s /\
  console (snd (LocalKVStorage.delete k e s)) = console s.
Proof.
  intros Hdir Hw. rewrite put_run, delete_run. unfold saved, with_data.
  cbn [data directory file console snd]. rewrite Hdir, Hw. cbn [negb].
  repeat split.
Qed.

Lemma successful_write_is_full_snapshot_witness :
  file (snd (LocalKVStorage.put (js "a") (StringValue (js "1")) None
               (mkEnv 1 true) (mkState Map_empty true (Some NotJson) [])))
  = Some (JsonObject [(js "a", mkItem (js "1") None)]).
Proof.
  destruct (successful_write_is_full_snapshot
              (mkState Map_empty true (Some NotJson) []) (mkEnv 1 true)
              (js "a") (StringValue (js "1")) None eq_refl eq_refl)
    as (Hput & _).
  rewrite Hput. reflexivity.
Defined.

(** ** Reads and eviction *)

Lemma any_expired_false (t : Z) (m : JSMap Item) :
  Map_wf m ->
  (forall k it, Map_get k m = Some it -> expired t it = false) ->
  any_expired t m = false.
Proof.
  intros Hwf H. unfold any_expired.
  destruct (existsb _ m) eqn:E; [|reflexivity].
  apply existsb_exists in E as [[k it] [Hin Hexp]]. simpl in Hexp.
  apply (In_Map_get _ _ _ Hwf) in Hin. apply H in Hin. congruence.
Qed.

Lemma evicted_nothing (e : env) (s : state) :
  any_expired (Date_now e) (data s) = false -> evicted e s = s.
Proof.
  intros H. unfold evicted. rewrite H, (live_none_expired _ _ H).
  now destruct s.
Qed.

Lemma reads_leave_state (s : state) (e : env) (k : JSString)
      (type : option GetType) (arg : ListArgument) :
  Map_wf (data s) ->
  (forall k' it, Map_get k' (data s) = Some it ->
                 expired (Date_now e) it = false) ->
  snd (LocalKVStorage.get k type e s) = s /\
  snd (LocalKVStorage.list arg e s) = s.
Proof.
  intros Hwf H. rewrite get_run, list_run by assumption. cbn [snd].
  rewrite evicted_nothing by now apply any_expired_false.
  now split.
Qed.

(** X4. A get or a list at a clock reading at which no stored item is
    expired changes nothing: the map, the file and the console are as
    before. *)
Theorem read_without_expired_changes_nothing
        (s : state) (e : env) (k : JSString) (type : option GetType)
        (arg : ListArgument) :
  Map_wf (data s) ->
  (forall k' it, Map_get k' (data s) = Some it ->
                 expired (Date_now e) it = false) ->
  snd (LocalKVStorage.get k type e s) = s /\
  snd (LocalKVStorage.list arg e s) = s.
Proof.
  intros Hwf H. split.
  - now apply (reads_leave_state s e k type arg).
  - now apply (reads_leave_state s e k type arg).
Qed.

Lemma read_without_expired_changes_nothing_witness :
  snd (LocalKVStorage.list (StringArgument (js "t")) (mkEnv 400 false)
         two_sessions) = two_sessions.
Proof.
  apply (read_without_expired_changes_nothing two_sessions (mkEnv 400 false)
           (js "a") None (StringArgument (js "t")) two_sessions_wf).
  intros k' it H. apply Map_get_In in H.
  destruct H as [[= <- <-]|[[= <- <-]|[]]]; reflexivity.
Defined.

Lemma any_expired_true (t : Z) (m : JSMap Item) (k : JSString) (it : Item) :
  Map_get k m = Some it -> expired t it = true -> any_expired t m = true.
Proof.
  intros Hget Hexp. apply existsb_exists. exists (k, it).
  split; [now apply Map_get_In|exact Hexp].
Qed.

(** X5. The eviction of a get or a list removes exactly the items whose
    expiry is set, is not 0 and lies before the clock reading, whatever key
    was asked for, and keeps the other entries in their order; when it
    removed something and the disk takes the write, the file becomes the
    snapshot of what is left. *)
Theorem eviction_is_exact
        (s : state) (e : env) (k : JSString) (type : option GetType)
        (arg : ListArgument) :
  Map_wf (data s) ->
  data (snd (LocalKVStorage.get k type e s))
  = filter (fun kv => negb (expired (Date_now e) (snd kv))) (data s) /\
  data (snd (LocalKVStorage.list arg e s))
  = filter (fun kv => negb (expired (Date_now e) (snd kv))) (data s) /\
  (forall k' it,
      Map_get k' (data (snd (LocalKVStorage.get k type e s))) = Some it <->
      Map_get k' (data s) = Some it /\ expired (Date_now e) it = false) /\
  (directory s = true -> fs_writable e = true ->
   (exists k' it, Map_get k' (data s) = Some it /\
                  expired (Date_now e) it = true) ->
   file (snd (LocalKVStorage.get k type e s))
   = Some (persisted (data (snd (LocalKVStorage.get k type e s))))).
Proof.
  intros Hwf. rewrite get_data, list_data by assumption.
  split; [reflexivity|]. split; [reflexivity|]. split.
  - intros k' it. rewrite Map_get_live by assumption.
    destruct (Map_get k' (data s)) as [it'|]; [|split; [discriminate|intros [H _]; discriminate]].
    destruct (expired (Date_now e) it') eqn:E; split.
    + discriminate.
    + intros [[= ->] H]. congruence.
    + intros [= ->]. now split.
    + intros [[= ->] _]. reflexivity.
  - intros Hdir Hw (k' & it & Hget & Hexp).
    rewrite get_run by assumption. cbn [snd]. unfold evicted.
    rewrite (any_expired_true _ _ _ _ Hget Hexp).
    unfold saved, with_data. cbn [data directory file].
    now rewrite Hdir, Hw.
Qed.

Lemma eviction_is_exact_witness :
  data (snd (LocalKVStorage.get (js "session:1") None (mkEnv 501 true)
               two_sessions))
  = [(js "session:1", mkItem (js "x") None)].
Proof.
  destruct (eviction_is_exact two_sessions (mkEnv 501 true) (js "session:1")
              None Undefined two_sessions_wf) as (Hget & _).
  rewrite Hget. reflexivity.
Defined.

Lemma expired_mono (t t' : Z) (it : Item) :
  t' <= t -> expired t it = false -> expired t' it = false.
Proof.
  unfold expired. destruct (expiry it) as [x|]; [|reflexivity].
  destruct (x =? 0); [reflexivity|].
  intros Hle H. apply Z.ltb_ge in H. apply Z.ltb_ge. lia.
Qed.

(** X6. After a get at clock reading t, a further get or list at a reading
    that is not later than t evicts nothing and writes nothing: the state
    is the one the first get left. *)
Theorem eviction_is_idempotent
        (s : state) (e e' : env) (k k' : JSString)
        (type type' : option GetType) (arg : ListArgument) :
  Map_wf (data s) -> Date_now e' <= Date_now e ->
  snd (LocalKVStorage.get k' type' e' (snd (LocalKVStorage.get k type e s)))
  = snd (LocalKVStorage.get k type e s) /\
  snd (LocalKVStorage.list arg e' (snd (LocalKVStorage.get k type e s)))
  = snd (LocalKVStorage.get k type e s).
Proof.
  intros Hwf Hle.
  assert (Hwf' : Map_wf (data (snd (LocalKVStorage.get k type e s))))
    by (rewrite get_data by assumption; now apply live_wf).
  apply reads_leave_state; [exact Hwf'|].
  intros k0 it. rewrite get_data, Map_get_live by assumption.
  destruct (Map_get k0 (data s)) as [it'|]; [|discriminate].
  destruct (expired (Date_now e) it') eqn:E; [discriminate|].
  intros [= <-]. now apply (expired_mono (Date_now e)).
Qed.

Lemma eviction_is_idempotent_witness :
  snd (LocalKVStorage.get (js "token") None (mkEnv 600 true)
         (snd (LocalKVStorage.get (js "token") None (mkEnv 600 true)
                 two_sessions)))
  = snd (LocalKVStorage.get (js "token") None (mkEnv 600 true) two_sessions).
Proof.
  apply (eviction_is_idempotent two_sessions (mkEnv 600 true)
           (mkEnv 600 true) (js "token") (js "token") None None Undefined
           two_sessions_wf).
  simpl. lia.
Defined.

(** X7. For every type but "json", get resolves to null exactly when the
    key is absent or its item is evicted by this very call; an item whose
    value is the empty string is handed back, not turned into null. (For
    "json" the answer is what [JSON.parse] makes of the text, which may
    itself be null.) *)
Theorem get_null_iff_absent_or_expired
        (s : state) (e : env) (k : JSString) (type : option GetType) :
  Map_wf (data s) -> type <> Some json ->
  (fst (LocalKVStorage.get k type e s) = Normal null <->
   forall it, Map_get k (data s) = Some it -> expired (Date_now e) it = true).
Proof.
  intros Hwf Hty. rewrite get_run by assumption. cbn [fst].
  rewrite Map_get_live by assumption.
  destruct (Map_get k (data s)) as [it|].
  - destruct (expired (Date_now e) it) eqn:E; split.
    + intros _ it' [= <-]. exact E.
    + reflexivity.
    + destruct type as [[]|]; discriminate.
    + intros H. specialize (H it eq_refl). congruence.
  - split; [intros _ it H; discriminate|reflexivity].
Qed.

Lemma get_null_iff_absent_or_expired_witness :
  fst (LocalKVStorage.get (js "nope") (Some stream) (mkEnv 1 true) two_sessions)
  = Normal null.
Proof.
  apply (get_null_iff_absent_or_expired two_sessions (mkEnv 1 true)
           (js "nope") (Some stream) two_sessions_wf).
  - discriminate.
  - intros it H. discriminate H.
Defined.

(** ** The order of a listing *)

Lemma filter_all {A} (f : A -> bool) (l : list A) :
  (forall x, In x l -> f x = true) -> filter f l = l.
Proof.
  induction l as [|a l IH]; simpl; intros H; [reflexivity|].
  rewrite (H a) by now left. f_equal. apply IH. intros x Hx. apply H. now right.
Qed.

Lemma existsb_key_get {V} (m : JSMap V) (k : JSString) :
  existsb (fun k' => str_eqb k' k) (Map_keys m) =
    match Map_get k m with Some _ => true | None => false end.
Proof.
  induction m as [|[k' w] m IH]; simpl; [reflexivity|].
  destruct (str_eqb k' k); [reflexivity|exact IH].
Qed.

(** X8. list() hands the keys back in insertion order: on a store none of
    whose items is expired, a put without a time to live on a key that is
    present leaves the listing as it was, and on a new key appends that
    key at the end. *)
Theorem list_keeps_insertion_order
        (s : state) (e1 e2 : env) (k : JSString) (v : PutValue)
        (options : option PutOptions) :
  Map_wf (data s) -> no_ttl options ->
  (forall k' it, Map_get k' (data s) = Some it ->
                 expired (Date_now e2) it = false) ->
  fst (LocalKVStorage.list Undefined e2 s)
  = Normal (mkListResult (map mkKey (Map_keys (data s)))) /\
  fst (LocalKVStorage.list Undefined e2 (snd (LocalKVStorage.put k v options e1 s)))
  = Normal (mkListResult
              (map mkKey match Map_get k (data s) with
                         | Some _ => Map_keys (data s)
                         | None => Map_keys (data s) ++ [k]
                         end)).
Proof.
  intros Hwf Hopt Hlive.
  assert (Hexp : put_expiry (Date_now e1) options = None)
    by (destruct Hopt; subst; reflexivity).
  rewrite !list_run by (try rewrite put_data; try apply Map_set_wf; assumption).
  cbn [fst falsy orb]. rewrite put_data, Hexp. split.
  - rewrite live_none_expired by now apply any_expired_false.
    now rewrite filter_all.
  - rewrite live_none_expired.
    + rewrite filter_all by reflexivity.
      rewrite Map_keys_set, existsb_key_get.
      now destruct (Map_get k (data s)).
    + apply any_expired_false; [now apply Map_set_wf|].
      intros k' it. destruct (str_eqb k k') eqn:E.
      * apply str_eqb_eq in E. subst k'. rewrite Map_get_set_eq.
        intros [= <-]. reflexivity.
      * apply str_eqb_neq in E. rewrite Map_get_set_neq by assumption.
        apply Hlive.
Qed.

Lemma list_keeps_insertion_order_witness :
  fst (LocalKVStorage.list Undefined (mkEnv 300 true)
         (snd (LocalKVStorage.put (js "a") (StringValue (js "1")) None
                 (mkEnv 200 true) two_sessions)))
  = Normal (mkListResult [mkKey (js "session:1"); mkKey (js "token");
                          mkKey (js "a")]).
Proof.
  destruct (list_keeps_insertion_order two_sessions (mkEnv 200 true)
              (mkEnv 300 true) (js "a") (StringValue (js "1")) None
              two_sessions_wf) as (_ & Hput).
  - left; reflexivity.
  - intros k' it H. apply Map_get_In in H.
    destruct H as [[= <- <-]|[[= <- <-]|[]]]; reflexivity.
  - rewrite Hput. reflexivity.
Defined.

(** ** The disk and the answers *)

Lemma perform_data (c : Call) (e : env) (s : state) :
  Map_wf (data s) ->
  data (perform c e s) = data_after c (Date_now e) (data s).
Proof.
  intros Hwf. destruct c; simpl.
  - now apply get_data.
  - apply put_data.
  - apply delete_data.
  - now apply list_data.
Qed.

Lemma run_data (calls calls' : list (env * Call)) (s s' : state) :
  Forall2 same_but_disk calls calls' ->
  Map_wf (data s) -> data s' = data s ->
  data (run calls' s') = data (run calls s).
Proof.
  intros Hall. revert s s'.
  induction Hall as [|[e c] [e' c'] calls calls' [Ht Hc] _ IH];
    intros s s' Hwf Heq; simpl; [exact Heq|].
  simpl in Ht, Hc. subst c'.
  apply IH; [now apply perform_wf|].
  rewrite !perform_data by (try rewrite Heq; assumption).
  now rewrite Heq, Ht.
Qed.

(** X9. What the store answers never depends on the disk: two runs of the
    same calls at the same clock readings, one with writes that go through
    and one with writes that fail, started from stores with the same map,
    leave the same map and answer a get alike. *)
Theorem answers_do_not_depend_on_disk
        (calls calls' : list (env * Call)) (s s' : state) (e e' : env)
        (k : JSString) (type : option GetType) :
  Forall2 same_but_disk calls calls' ->
  Map_wf (data s) -> data s' = data s -> Date_now e' = Date_now e ->
  data (run calls' s') = data (run calls s) /\
  fst (LocalKVStorage.get k type e' (run calls' s'))
  = fst (LocalKVStorage.get k type e (run calls s)).
Proof.
  intros Hall Hwf Heq Ht.
  pose proof (run_data calls calls' s s' Hall Hwf Heq) as Hrun.
  split; [exact Hrun|].
  assert (Hwf1 : Map_wf (data (run calls s))) by now apply run_wf.
  assert (Hwf2 : Map_wf (data (run calls' s'))) by now rewrite Hrun.
  rewrite !get_run by assumption. cbn [fst]. now rewrite Hrun, Ht.
Qed.

Lemma answers_do_not_depend_on_disk_witness :
  fst (LocalKVStorage.get (js "a") None (mkEnv 9 false)
         (run [(mkEnv 5 false, call_put (js "a") (StringValue (js "1")) None)]
              empty_store))
  = fst (LocalKVStorage.get (js "a") None (mkEnv 9 true)
           (run [(mkEnv 5 true, call_put (js "a") (StringValue (js "1")) None)]
                empty_store)).
Proof.
  apply (answers_do_not_depend_on_disk
           [(mkEnv 5 true, call_put (js "a") (StringValue (js "1")) None)]
           [(mkEnv 5 false, call_put (js "a") (StringValue (js "1")) None)]
           empty_store empty_store (mkEnv 9 true) (mkEnv 9 false)).
  - repeat constructor.
  - constructor.
  - reflexivity.
  - reflexivity.
Defined.

(** ** Construction and the file *)

(** X10. On a path whose directory exists, so that nothing has to be
    created, constructing a store returns normally and never writes the
    backing file, whatever it holds; and a second construction on the same
    path builds the same map. *)
Theorem construction_leaves_file (e e' : env) (w : state) :
  directory w = true ->
  fst (new_LocalKVStorage e w) = Normal tt /\
  file (snd (new_LocalKVStorage e w)) = file w /\
  data (snd (new_LocalKVStorage e' (snd (new_LocalKVStorage e w))))
  = data (snd (new_LocalKVStorage e w)).
Proof.
  intros _. rewrite (constructor_run e w). cbn [fst snd].
  destruct (file w) as [[|members]|]; rewrite constructor_run; repeat split.
Qed.

Lemma construction_leaves_file_witness :
  file (snd (new_LocalKVStorage (mkEnv 0 false)
               (mkState Map_empty true (Some NotJson) [])))
  = Some NotJson.
Proof.
  apply (construction_leaves_file (mkEnv 0 false) (mkEnv 1 true)
           (mkState Map_empty true (Some NotJson) []) eq_refl).
Defined.

(** ** A string stored, read as bytes and stored again *)

Lemma well_formed_utf16_scalars (n : nat) (s : JSString) :
  (List.length s <= n)%nat -> well_formed_utf16 s = true ->
  Forall is_scalar (scalar_values s) /\
  flat_map utf16_units (scalar_values s) = s.
Proof.
  revert s. induction n as [|n IH]; intros s Hlen Hwf.
  - destruct s; [split; [constructor|reflexivity]|simpl in Hlen; lia].
  - destruct s as [|u rest]; [split; [constructor|reflexivity]|].
    simpl in Hlen. cbn [well_formed_utf16 scalar_values] in *.
    destruct (is_lead_surrogate u) eqn:Hlead.
    + destruct rest as [|t rest']; [discriminate|].
      apply andb_true_iff in Hwf as [Htrail Hwf]. rewrite Htrail.
      simpl in Hlen. destruct (IH rest') as [Hsc Hunits]; [lia|exact Hwf|].
      unfold is_lead_surrogate in Hlead. unfold is_trail_surrogate in Htrail.
      apply andb_true_iff in Hlead as [H1 H2], Htrail as [H3 H4].
      apply Z.leb_le in H1, H2, H3, H4. split.
      * constructor; [unfold is_scalar; lia|exact Hsc].
      * cbn [flat_map]. rewrite Hunits. unfold utf16_units.
        destruct (Z.ltb_spec (65536 + (u - 55296) * 1024 + (t - 56320)) 65536);
          [lia|].
        cbn [app]. f_equal; [arith|]. f_equal. arith.
    + apply andb_true_iff in Hwf as [Hwf Hrest].
      apply andb_true_iff in Hwf as [Hwf Hhi].
      apply andb_true_iff in Hwf as [Htrail Hlo].
      apply negb_true_iff in Htrail. rewrite Htrail.
      destruct (IH rest) as [Hsc Hunits]; [lia|exact Hrest|].
      apply Z.leb_le in Hlo. apply Z.ltb_lt in Hhi.
      unfold is_lead_surrogate in Hlead. unfold is_trail_surrogate in Htrail.
      split.
      * constructor; [|exact Hsc]. unfold is_scalar.
        destruct (Z.leb_spec 55296 u), (Z.leb_spec u 56319),
          (Z.leb_spec 56320 u), (Z.leb_spec u 57343);
          cbn [andb] in *; try discriminate; lia.
      * cbn [flat_map]. rewrite Hunits. unfold utf16_units.
        destruct (Z.ltb_spec u 65536); [reflexivity|lia].
Qed.

Lemma scalar_values_head (s : JSString) :
  well_formed_utf16 s = true -> hd_error s <> Some BOM ->
  hd_error (scalar_values s) <> Some BOM.
Proof.
  destruct s as [|u rest]; [intros _ H; exact H|].
  cbn [well_formed_utf16 scalar_values].
  destruct (is_lead_surrogate u) eqn:Hlead.
  - destruct rest as [|t rest']; [discriminate|].
    intros Hwf _. apply andb_true_iff in Hwf as [Htrail _]. rewrite Htrail.
    unfold is_lead_surrogate in Hlead. unfold is_trail_surrogate in Htrail.
    apply andb_true_iff in Hlead as [H1 H2], Htrail as [H3 H4].
    apply Z.leb_le in H1, H2, H3, H4. cbn [hd_error]. unfold BOM.
    intros H.
    assert (H' : 65536 + (u - 55296) * 1024 + (t - 56320) = 65279)
      by congruence.
    lia.
  - intros Hwf. apply andb_true_iff in Hwf as [Hwf _].
    apply andb_true_iff in Hwf as [Hwf _].
    apply andb_true_iff in Hwf as [Htrail _].
    apply negb_true_iff in Htrail. rewrite Htrail. cbn [hd_error].
    exact (fun H => H).
Qed.

Lemma decode_encode_well_formed (s : JSString) :
  well_formed_utf16 s = true -> hd_error s <> Some BOM ->
  TextDecoder_decode (TextEncoder_encode s) = s.
Proof.
  intros Hwf Hbom.
  destruct (well_formed_utf16_scalars (List.length s) s (Nat.le_refl _) Hwf)
    as [Hsc Hunits].
  unfold TextDecoder_decode, TextEncoder_encode.
  rewrite map_Z_of_byte_of_Z by now apply utf8_encode_bytes.
  rewrite utf8_decode_encode by assumption.
  rewrite strip_BOM_id by now apply scalar_values_head.
  exact Hunits.
Qed.

(** X11. A string without lone surrogates that does not begin with U+FEFF
    survives the way through bytes: stored with put, read with
    get(k, "arrayBuffer"), the buffer read stored again with put, and read
    with get as text, it comes back as it was. *)
Theorem string_through_buffer_round_trip
        (s1 s2 : state) (e1 e2 e3 e4 : env) (k k' v : JSString) :
  Map_wf (data s1) -> Map_wf (data s2) ->
  well_formed_utf16 v = true -> hd_error v <> Some BOM ->
  exists b,
    fst (LocalKVStorage.get k (Some arrayBuffer) e2
           (snd (LocalKVStorage.put k (StringValue v) None e1 s1)))
    = Normal (ArrayBuffer_ b) /\
    fst (LocalKVStorage.get k' None e4
           (snd (LocalKVStorage.put k' (BufferValue b) None e3 s2)))
    = Normal (String_ v).
Proof.
  intros Hwf1 Hwf2 Hv Hbom. exists (TextEncoder_encode v).
  rewrite !get_run by (rewrite put_data; now apply Map_set_wf).
  cbn [fst]. rewrite !put_data. cbn [put_expiry put_string].
  rewrite !Map_get_live by now apply Map_set_wf.
  rewrite !Map_get_set_eq. cbn [expired expiry render value].
  split; [reflexivity|]. now rewrite decode_encode_well_formed.
Qed.

Lemma string_through_buffer_round_trip_witness :
  exists b,
    fst (LocalKVStorage.get (js "k") (Some arrayBuffer) (mkEnv 2 true)
           (snd (LocalKVStorage.put (js "k") (StringValue [104; 233; 55357; 56832])
                   None (mkEnv 1 true) empty_store)))
    = Normal (ArrayBuffer_ b) /\
    fst (LocalKVStorage.get (js "c") None (mkEnv 4 true)
           (snd (LocalKVStorage.put (js "c") (BufferValue b) None (mkEnv 3 true)
                   two_sessions)))
    = Normal (String_ [104; 233; 55357; 56832]).
Proof.
  apply (string_through_buffer_round_trip empty_store two_sessions
           (mkEnv 1 true) (mkEnv 2 true) (mkEnv 3 true) (mkEnv 4 true)
           (js "k") (js "c") [104; 233; 55357; 56832]).
  - constructor.
  - apply two_sessions_wf.
  - reflexivity.
  - simpl. discriminate.
Defined.

(** * The environment loader *)

(** ** Splitting and joining *)

Lemma String_split_cons (sep : Z) (s : JSString) :
  exists piece pieces, String_split sep s = piece :: pieces.
Proof.
  induction s as [|c s [p [ps IH]]]; simpl.
  - now exists [], [].
  - destruct (c =? sep); [now exists [], (String_split sep s)|].
    rewrite IH. now exists (c :: p), ps.
Qed.

Lemma String_split_no_sep (sep : Z) (s : JSString) :
  ~ In sep s -> String_split sep s = [s].
Proof.
  induction s as [|c s IH]; simpl; intros H; [reflexivity|].
  destruct (Z.eqb_spec c sep) as [->|Hne]; [elim H; now left|].
  rewrite IH; [reflexivity|]. intros Hin. apply H. now right.
Qed.

Lemma String_split_first (sep : Z) (k rest : JSString) :
  ~ In sep k ->
  String_split sep (k ++ sep :: rest) = k :: String_split sep rest.
Proof.
  induction k as [|c k IH]; simpl; intros H.
  - now rewrite Z.eqb_refl.
  - destruct (Z.eqb_spec c sep) as [->|Hne]; [elim H; now left|].
    rewrite IH; [reflexivity|]. intros Hin. apply H. now right.
Qed.

Lemma Array_join_split (sep : Z) (s : JSString) :
  Array_join [sep] (String_split sep s) = s.
Proof.
  induction s as [|c s IH]; simpl; [reflexivity|].
  destruct (String_split_cons sep s) as [p [ps E]]. rewrite E in *.
  destruct (Z.eqb_spec c sep) as [->|Hne];
    destruct ps as [|q qs]; cbn [Array_join app] in *;
    rewrite <- IH; reflexivity.
Qed.

Lemma first_separator (sep : Z) (s : JSString) :
  In sep s -> exists k rest, s = k ++ sep :: rest /\ ~ In sep k.
Proof.
  induction s as [|c s IH]; simpl; [intros []|].
  destruct (Z.eq_dec c sep) as [->|Hne].
  - intros _. exists [], s. split; [reflexivity|intros []].
  - intros [H|H]; [contradiction|].
    destruct (IH H) as (k & rest & -> & Hk).
    exists (c :: k), rest. split; [reflexivity|].
    intros [H'|H']; [contradiction|now apply Hk].
Qed.

(** X12. Splitting a string at a separator and joining the pieces with the
    separator gives the string back; and when the text before the first
    separator is k, the first piece is k and the other pieces joined are
    the whole text after that separator, further separators included. *)
Theorem split_join_round_trip (sep : Z) (s k rest : JSString) :
  ~ In sep k ->
  Array_join [sep] (String_split sep s) = s /\
  exists pieces,
    String_split sep (k ++ sep :: rest) = k :: pieces /\
    Array_join [sep] pieces = rest.
Proof.
  intros Hk. split; [apply Array_join_split|].
  exists (String_split sep rest).
  split; [now apply String_split_first|apply Array_join_split].
Qed.

Lemma split_join_round_trip_witness :
  exists pieces,
    String_split EQUALS_SIGN (js "KEY" ++ EQUALS_SIGN :: js "a=b==")
    = js "KEY" :: pieces /\
    Array_join [EQUALS_SIGN] pieces = js "a=b==".
Proof.
  apply (split_join_round_trip EQUALS_SIGN (js "x") (js "KEY") (js "a=b==")).
  simpl. unfold EQUALS_SIGN. intros [H|[H|[H|[]]]]; discriminate H.
Defined.

(** ** Trimming *)

Lemma trimStart_split (s : JSString) :
  exists ws, s = ws ++ trimStart s /\
             Forall (fun c => is_WhiteSpace c = true) ws.
Proof.
  induction s as [|c s (ws & IH & Hws)]; simpl.
  - exists []. split; [reflexivity|constructor].
  - destruct (is_WhiteSpace c) eqn:E.
    + exists (c :: ws). split; [simpl; now rewrite <- IH|now constructor].
    + exists []. split; [reflexivity|constructor].
Qed.

Lemma trimStart_head (s : JSString) (c : Z) (r : JSString) :
  trimStart s = c :: r -> is_WhiteSpace c = false.
Proof.
  induction s as [|d s IH]; simpl; [discriminate|].
  destruct (is_WhiteSpace d) eqn:E; [exact IH|]. now intros [= <- _].
Qed.

Lemma trimStart_id (c : Z) (r : JSString) :
  is_WhiteSpace c = false -> trimStart (c :: r) = c :: r.
Proof. intros H. simpl. now rewrite H. Qed.

Lemma trimStart_idempotent (s : JSString) :
  trimStart (trimStart s) = trimStart s.
Proof.
  destruct (trimStart s) as [|c r] eqn:E; [reflexivity|].
  apply trimStart_id. now apply (trimStart_head s c r).
Qed.

Lemma trimEnd_split (s : JSString) :
  exists ws, s = trimEnd s ++ ws /\
             Forall (fun c => is_WhiteSpace c = true) ws.
Proof.
  unfold trimEnd. destruct (trimStart_split (rev s)) as (ws & E & Hws).
  exists (rev ws). split.
  - rewrite <- rev_app_distr, <- E. now rewrite rev_involutive.
  - now apply Forall_rev.
Qed.

Lemma trimEnd_idempotent (s : JSString) : trimEnd (trimEnd s) = trimEnd s.
Proof.
  unfold trimEnd. now rewrite rev_involutive, trimStart_idempotent.
Qed.

Lemma trimEnd_last (s r : JSString) (c : Z) :
  trimEnd s = r ++ [c] -> is_WhiteSpace c = false.
Proof.
  unfold trimEnd. intros H.
  apply (f_equal (@rev Z)) in H. rewrite rev_involutive, rev_app_distr in H.
  simpl in H. now apply (trimStart_head (rev s) c (rev r)).
Qed.

Lemma trimEnd_id (r : JSString) (c : Z) :
  is_WhiteSpace c = false -> trimEnd (r ++ [c]) = r ++ [c].
Proof.
  intros H. unfold trimEnd. rewrite rev_app_distr. simpl. rewrite H.
  change (c :: rev r) with ([c] ++ rev r).
  now rewrite rev_app_distr, rev_involutive.
Qed.

(** The trimmed string, when it is not empty, begins and ends with a code
    unit that is not white space. *)
Lemma trim_head (s : JSString) (c : Z) (r : JSString) :
  trim s = c :: r -> is_WhiteSpace c = false.
Proof.
  unfold trim. intros H.
  destruct (trimEnd_split (trimStart s)) as (ws & E & _).
  rewrite H in E. simpl in E. now apply (trimStart_head s c (r ++ ws)).
Qed.

Lemma trim_last (s r : JSString) (c : Z) :
  trim s = r ++ [c] -> is_WhiteSpace c = false.
Proof. unfold trim. apply trimEnd_last. Qed.

Lemma trim_idempotent (s : JSString) : trim (trim s) = trim s.
Proof.
  unfold trim at 1. destruct (trim s) as [|c r] eqn:E; [reflexivity|].
  rewrite trimStart_id by now apply (trim_head s c r).
  rewrite <- E. unfold trim. apply trimEnd_idempotent.
Qed.

Lemma trim_incl (s : JSString) (c : Z) : In c (trim s) -> In c s.
Proof.
  unfold trim. intros H.
  destruct (trimEnd_split (trimStart s)) as (ws & E & _).
  destruct (trimStart_split s) as (ws' & E' & _).
  rewrite E'. apply in_or_app. right. rewrite E. apply in_or_app. now left.
Qed.

Lemma trim_id (s : JSString) (c d : Z) (r : JSString) :
  s = c :: r -> (exists r', s = r' ++ [d]) ->
  is_WhiteSpace c = false -> is_WhiteSpace d = false -> trim s = s.
Proof.
  intros -> [r' E] Hc Hd. unfold trim. rewrite trimStart_id by assumption.
  rewrite E. now apply trimEnd_id.
Qed.

(** ** One line of [.env] *)

Lemma dotenv_line_entry (penv : JSMap JSString) (line : JSString) :
  dotenv_line penv line =
    match dotenv_entry line with
    | Some (key, value) => process_env_set key value penv
    | None => penv
    end.
Proof.
  unfold dotenv_line, dotenv_entry.
  destruct (truthy (trim line) && negb (startsWith (trim line) (js "#")));
    [|reflexivity].
  destruct (String_split EQUALS_SIGN (trim line)) as [|key valueParts];
    [reflexivity|].
  now destruct (truthy key && truthy (trim (Array_join (js "=") valueParts))).
Qed.

Lemma truthy_iff (s : JSString) : truthy s = true <-> s <> [].
Proof. destruct s; simpl; split; congruence. Qed.

Lemma startsWith_hash_app (k rest : JSString) :
  k <> [] -> startsWith (k ++ rest) (js "#") = startsWith k (js "#").
Proof. destruct k as [|c k]; [congruence|reflexivity]. Qed.

Lemma dotenv_entry_assigns (line key value : JSString) :
  dotenv_entry line = Some (key, value) <-> dotenv_assigns line key value.
Proof.
  unfold dotenv_entry, dotenv_assigns.
  change (js "=") with [EQUALS_SIGN]. split.
  - destruct (in_dec Z.eq_dec EQUALS_SIGN (trim line)) as [Hin|Hnot].
    + destruct (first_separator _ _ Hin) as (k & rest & E & Hk).
      rewrite E, String_split_first, Array_join_split by assumption.
      destruct (truthy (k ++ EQUALS_SIGN :: rest)
                && negb (startsWith (k ++ EQUALS_SIGN :: rest) (js "#")))
               eqn:C1; [|discriminate].
      destruct (truthy k && truthy (trim rest)) eqn:C2; [|discriminate].
      intros [= <- <-]. exists rest.
      apply andb_true_iff in C1 as [_ Hhash], C2 as [Hkey Hval].
      apply truthy_iff in Hkey, Hval. apply negb_true_iff in Hhash.
      rewrite startsWith_hash_app in Hhash by assumption.
      repeat split; assumption.
    + rewrite String_split_no_sep by assumption. cbn [Array_join trim].
      destruct (truthy (trim line) && _); [|discriminate].
      rewrite andb_false_r. discriminate.
  - intros (rest & E & Hk & Hkey & Hhash & -> & Hval).
    rewrite E, String_split_first, Array_join_split by assumption.
    rewrite startsWith_hash_app, Hhash by assumption.
    apply truthy_iff in Hval. rewrite Hval.
    destruct key as [|c key']; [congruence|reflexivity].
Qed.

(** ** The C strings of [process.env] *)

Lemma until_NUL_plain (s : JSString) :
  Forall plain_unit s -> until_NUL s = s.
Proof.
  induction 1 as [|u s Hu _ IH]; simpl; [reflexivity|].
  unfold plain_unit in Hu. destruct (Z.eqb_spec u 0); [lia|now rewrite IH].
Qed.

Lemma scalar_values_plain (s : JSString) :
  Forall plain_unit s -> scalar_values s = s.
Proof.
  induction 1 as [|u s Hu _ IH]; cbn [scalar_values]; [reflexivity|].
  unfold plain_unit in Hu. unfold is_lead_surrogate, is_trail_surrogate.
  destruct (Z.leb_spec 55296 u), (Z.leb_spec u 56319),
    (Z.leb_spec 56320 u), (Z.leb_spec u 57343); cbn [andb]; try lia;
    now rewrite IH.
Qed.

Lemma utf16_units_plain (s : JSString) :
  Forall plain_unit s -> flat_map utf16_units s = s.
Proof.
  induction 1 as [|u s Hu _ IH]; cbn [flat_map]; [reflexivity|].
  rewrite IH. unfold plain_unit in Hu. unfold utf16_units.
  destruct (Z.ltb_spec u 65536); [reflexivity|lia].
Qed.

(** A string of plain units is its own C string. *)
Lemma c_string_plain (s : JSString) : Forall plain_unit s -> c_string s = s.
Proof.
  intros H. unfold c_string.
  now rewrite until_NUL_plain, scalar_values_plain, utf16_units_plain.
Qed.

Lemma existsb_eqb_In (x : Z) (l : list Z) :
  existsb (Z.eqb x) l = true <-> In x l.
Proof.
  rewrite existsb_exists. split.
  - intros (y & Hin & E). apply Z.eqb_eq in E. now subst.
  - intros Hin. exists x. split; [assumption|apply Z.eqb_refl].
Qed.

Lemma process_env_set_plain (key value : JSString) (penv : JSMap JSString) :
  Forall plain_unit key -> Forall plain_unit value ->
  key <> [] -> ~ In EQUALS_SIGN key ->
  process_env_set key value penv = Map_set key value penv.
Proof.
  intros Hk Hv Hne Heq. unfold process_env_set.
  rewrite !c_string_plain by assumption.
  apply truthy_iff in Hne. rewrite Hne.
  destruct (existsb (Z.eqb EQUALS_SIGN) key) eqn:E; [|reflexivity].
  apply existsb_eqb_In in E. contradiction.
Qed.

Lemma process_env_get_set_eq (key value name : JSString)
      (penv : JSMap JSString) :
  c_string key = name -> name <> [] -> ~ In EQUALS_SIGN name ->
  Map_get name (process_env_set key value penv) = Some (c_string value).
Proof.
  intros <- Hne Heq. unfold process_env_set.
  apply truthy_iff in Hne. rewrite Hne.
  destruct (existsb (Z.eqb EQUALS_SIGN) (c_string key)) eqn:E.
  - apply existsb_eqb_In in E. contradiction.
  - apply Map_get_set_eq.
Qed.

Lemma process_env_get_set_neq (key value name : JSString)
      (penv : JSMap JSString) :
  c_string key <> name ->
  Map_get name (process_env_set key value penv) = Map_get name penv.
Proof.
  intros Hne. unfold process_env_set.
  destruct (truthy (c_string key)
            && negb (existsb (Z.eqb EQUALS_SIGN) (c_string key)));
    [now apply Map_get_set_neq|reflexivity].
Qed.

(** The value of a line is cut at U+0000 on its way into [process.env]:
    the line N1=x, space, U+0000, y leaves N1 with the value x and a space;
    and the line OPENAI_API_KEY=, U+0000, x leaves the key empty, which
    switches the authentication off. *)
Lemma dotenv_value_cut_at_NUL :
  dotenv_line [] (js "N1=x " ++ [0] ++ js "y") = [(js "N1", js "x ")] /\
  exists settings,
    fst (loadNodeEnv (mkEnv 0 true)
           (mkNodeWorld [(js "OPENAI_API_KEY", js "sk-1")]
                        (Some (js "OPENAI_API_KEY=" ++ [0] ++ js "x"))
                        empty_store))
    = Normal settings /\
    OPENAI_API_KEY settings = Some [] /\
    requiresAuth settings = false.
Proof. split; [reflexivity|]. eexists. repeat split. Qed.

(** X13. What one line of the file does: when the line, trimmed, reads
    key=rest with a key that is not empty, holds no equals sign and does
    not begin with a hash, and rest trimmed is not empty, and the key and
    rest trimmed are made of plain units (no U+0000, no surrogate), the
    variable key is set to rest trimmed (quotes and all); a line that does
    not read so, whatever its code units, leaves the variables as they
    are. *)
Theorem dotenv_line_assignment (penv : JSMap JSString) (line : JSString) :
  (forall key value,
      dotenv_assigns line key value ->
      Forall plain_unit key -> Forall plain_unit value ->
      dotenv_line penv line = Map_set key value penv) /\
  ((forall key value, ~ dotenv_assigns line key value) ->
   dotenv_line penv line = penv).
Proof.
  rewrite dotenv_line_entry. split.
  - intros key value H Hk Hv. pose proof H as (rest & _ & Heq & Hne & _).
    apply dotenv_entry_assigns in H. rewrite H.
    now apply process_env_set_plain.
  - intros H. destruct (dotenv_entry line) as [[key value]|] eqn:E;
      [|reflexivity].
    apply dotenv_entry_assigns in E. now elim (H key value).
Qed.

Lemma dotenv_line_assignment_witness :
  dotenv_line [] (js "  DB_URL=postgres://h/db?sslmode=require  ")
  = [(js "DB_URL", js "postgres://h/db?sslmode=require")].
Proof.
  apply (proj1 (dotenv_line_assignment
                  [] (js "  DB_URL=postgres://h/db?sslmode=require  "))
               (js "DB_URL") (js "postgres://h/db?sslmode=require")).
  - exists (js "postgres://h/db?sslmode=require").
    split; [reflexivity|]. split.
    + unfold EQUALS_SIGN. simpl. intuition discriminate.
    + repeat split; discriminate.
  - repeat constructor; unfold plain_unit; lia.
  - repeat constructor; unfold plain_unit; lia.
Defined.

Lemma first_separator_unique (sep : Z) (k1 k2 r1 r2 : JSString) :
  ~ In sep k1 -> ~ In sep k2 ->
  k1 ++ sep :: r1 = k2 ++ sep :: r2 -> k1 = k2 /\ r1 = r2.
Proof.
  intros H1 H2 E. pose proof (f_equal (String_split sep) E) as Hs.
  rewrite !String_split_first in Hs by assumption.
  injection Hs as Hk _. subst k2. split; [reflexivity|].
  apply app_inv_head in E. now injection E.
Qed.

(** X14. Lines that set nothing: a line that is blank once trimmed, a
    comment (its first code unit that is not white space is a hash), a
    line without an equals sign, a line whose key is empty (=value) and a
    line whose value is empty (KEY=) all leave the variables as they
    are. *)
Theorem dotenv_line_ignored (penv : JSMap JSString) (line : JSString) :
  trim line = [] \/
  startsWith (trim line) (js "#") = true \/
  ~ In EQUALS_SIGN line \/
  (exists rest, trim line = EQUALS_SIGN :: rest) \/
  (exists key, ~ In EQUALS_SIGN key /\ trim line = key ++ [EQUALS_SIGN]) ->
  dotenv_line penv line = penv.
Proof.
  intros H. rewrite dotenv_line_entry.
  destruct (dotenv_entry line) as [[key value]|] eqn:Ent; [|reflexivity].
  exfalso. apply dotenv_entry_assigns in Ent.
  destruct Ent as (rest & E & Hk & Hkey & Hhash & Hv & Hval).
  destruct H as [H|[H|[H|[[rest' H]|(k & Hk' & H)]]]].
  - rewrite H in E. now destruct key.
  - rewrite E, startsWith_hash_app in H by assumption. congruence.
  - apply H, trim_incl. rewrite E. apply in_elt.
  - rewrite H in E. destruct key as [|c key']; [congruence|].
    injection E as <- _. apply Hk. now left.
  - rewrite H in E.
    destruct (first_separator_unique _ _ _ _ _ Hk' Hk E) as [_ <-].
    now subst value.
Qed.

Lemma dotenv_line_ignored_witness :
  dotenv_line [(js "A", js "1")] (js "   # A=2") = [(js "A", js "1")].
Proof.
  apply (dotenv_line_ignored [(js "A", js "1")] (js "   # A=2")).
  right; left. reflexivity.
Defined.

(** ** The whole file *)

Lemma loadNodeEnv_process_env (e : env) (w : NodeWorld) :
  process_env (snd (loadNodeEnv e w)) =
    match dotenv_file w with
    | Some envContent => dotenv_applied envContent (process_env w)
    | None => process_env w
    end.
Proof.
  unfold loadNodeEnv, dotenv_applied.
  destruct (new_LocalKVStorage e (kv_world w)) as [[u|err] kv];
    destruct (dotenv_file w); reflexivity.
Qed.

Lemma fold_dotenv_frame (lines : list JSString) (penv : JSMap JSString)
      (name : JSString) :
  (forall l k v, In l lines -> dotenv_assigns l k v -> c_string k <> name) ->
  Map_get name (fold_left dotenv_line lines penv) = Map_get name penv.
Proof.
  revert penv. induction lines as [|l lines IH]; intros penv H; simpl;
    [reflexivity|].
  rewrite IH by (intros l' k v Hin; apply H; now right).
  rewrite dotenv_line_entry.
  destruct (dotenv_entry l) as [[k v]|] eqn:E; [|reflexivity].
  apply dotenv_entry_assigns in E. apply process_env_get_set_neq.
  apply (H l k v); [now left|exact E].
Qed.

(** X15. The last assignment wins, over earlier lines and over the
    variable the process started with: after [loadNodeEnv], a variable
    whose name and value, both of plain units (no U+0000, no surrogate),
    are assigned by a line of the file holds that value, when the key of no
    later line is, as a C string, that name; and a variable that the key
    of no line names, as a C string, is as it was. *)
Theorem dotenv_last_assignment_wins
        (e : env) (w : NodeWorld) (envContent name : JSString) :
  dotenv_file w = Some envContent ->
  (forall before line after value,
      String_split LINE_FEED envContent = before ++ line :: after ->
      dotenv_assigns line name value ->
      Forall plain_unit name -> Forall plain_unit value ->
      (forall l k v, In l after -> dotenv_assigns l k v ->
                     c_string k <> name) ->
      Map_get name (process_env (snd (loadNodeEnv e w))) = Some value) /\
  ((forall l k v, In l (String_split LINE_FEED envContent) ->
                  dotenv_assigns l k v -> c_string k <> name) ->
   Map_get name (process_env (snd (loadNodeEnv e w)))
   = Map_get name (process_env w)).
Proof.
  intros Hfile. rewrite loadNodeEnv_process_env, Hfile. unfold dotenv_applied.
  split.
  - intros before line after value Hsplit Hline Hpn Hpv Hafter.
    rewrite Hsplit, fold_left_app. cbn [fold_left].
    rewrite fold_dotenv_frame by assumption.
    rewrite dotenv_line_entry. pose proof Hline as (rest & _ & Heq & Hne & _).
    apply dotenv_entry_assigns in Hline. rewrite Hline.
    rewrite process_env_set_plain by assumption. apply Map_get_set_eq.
  - apply fold_dotenv_frame.
Qed.

Lemma dotenv_last_assignment_wins_witness :
  Map_get (js "PORT")
          (process_env
             (snd (loadNodeEnv (mkEnv 0 true)
                     (mkNodeWorld [(js "PORT", js "80")]
                                  (Some (js "PORT=1" ++ [LINE_FEED]
                                         ++ js "PORT=2" ++ [LINE_FEED]
                                         ++ js "# PORT=3"))
                                  empty_store))))
  = Some (js "2").
Proof.
  apply (proj1 (dotenv_last_assignment_wins
                  (mkEnv 0 true)
                  (mkNodeWorld [(js "PORT", js "80")]
                               (Some (js "PORT=1" ++ [LINE_FEED]
                                      ++ js "PORT=2" ++ [LINE_FEED]
                                      ++ js "# PORT=3"))
                               empty_store)
                  (js "PORT=1" ++ [LINE_FEED] ++ js "PORT=2" ++ [LINE_FEED]
                   ++ js "# PORT=3")
                  (js "PORT") eq_refl)
               [js "PORT=1"] (js "PORT=2") [js "# PORT=3"] (js "2")).
  - reflexivity.
  - apply dotenv_entry_assigns. reflexivity.
  - repeat constructor; unfold plain_unit; lia.
  - repeat constructor; unfold plain_unit; lia.
  - intros l k v [<-|[]] H. apply dotenv_entry_assigns in H. discriminate H.
Defined.

Lemma String_split_pieces (sep : Z) (s p : JSString) :
  In p (String_split sep s) -> ~ In sep p /\ forall c, In c p -> In c s.
Proof.
  revert p. induction s as [|c s IH]; intros p; simpl.
  - intros [<-|[]]. split; [intros []|intros c []].
  - destruct (String_split_cons sep s) as [q [qs E]].
    destruct (Z.eqb_spec c sep) as [->|Hne].
    + intros [<-|H]; [split; [intros []|intros c []]|].
      destruct (IH p H) as [H1 H2]. split; [exact H1|].
      intros c Hc. right. now apply H2.
    + rewrite E in *. intros [<-|H].
      * destruct (IH q (or_introl eq_refl)) as [H1 H2]. split.
        -- intros [H|H]; [congruence|now apply H1].
        -- intros d [<-|Hd]; [now left|right; now apply H2].
      * destruct (IH p (or_intror H)) as [H1 H2]. split; [exact H1|].
        intros d Hd. right. now apply H2.
Qed.

(** The key and the value of an assignment are made of code units of the
    line. *)
Lemma dotenv_assigns_incl (line key value : JSString) :
  dotenv_assigns line key value ->
  (forall c, In c key -> In c line) /\ (forall c, In c value -> In c line).
Proof.
  intros (rest & E & _ & _ & _ & -> & _). split; intros c Hc.
  - apply trim_incl. rewrite E. apply in_or_app. now left.
  - apply trim_incl in Hc. apply trim_incl. rewrite E.
    apply in_or_app. right. now right.
Qed.

(** What an assignment made from a line without line feed looks like. *)
Lemma dotenv_assigns_shape (line key value : JSString) :
  ~ In LINE_FEED line -> dotenv_assigns line key value ->
  value <> [] /\ trim value = value /\ ~ In LINE_FEED value /\
  key <> [] /\ ~ In EQUALS_SIGN key /\ ~ In LINE_FEED key /\
  (forall c r, key = c :: r -> is_WhiteSpace c = false).
Proof.
  intros Hlf H. destruct (dotenv_assigns_incl _ _ _ H) as [Hik Hiv].
  destruct H as (rest & E & Hk & Hkey & Hhash & -> & Hval).
  repeat split; try assumption.
  - apply trim_idempotent.
  - intros H. now apply Hlf, Hiv.
  - intros H. now apply Hlf, Hik.
  - intros c r ->. apply (trim_head line c (r ++ EQUALS_SIGN :: rest)).
    exact E.
Qed.

(** On a line of plain units the assignment sets the variable of the key
    to the value as they stand. *)
Lemma dotenv_line_plain (penv : JSMap JSString) (line : JSString) :
  Forall plain_unit line ->
  dotenv_line penv line =
    match dotenv_entry line with
    | Some (key, value) => Map_set key value penv
    | None => penv
    end.
Proof.
  intros Hplain. rewrite dotenv_line_entry.
  destruct (dotenv_entry line) as [[key value]|] eqn:E; [|reflexivity].
  apply dotenv_entry_assigns in E.
  destruct (dotenv_assigns_incl _ _ _ E) as [Hik Hiv].
  destruct E as (rest & _ & Hk & Hkey & _).
  rewrite Forall_forall in Hplain.
  apply process_env_set_plain; try assumption;
    apply Forall_forall; intros c Hc; apply Hplain; auto.
Qed.

Lemma plain_lines (envContent line : JSString) :
  Forall plain_unit envContent ->
  In line (String_split LINE_FEED envContent) ->
  ~ In LINE_FEED line /\ Forall plain_unit line.
Proof.
  intros Hplain Hin. destruct (String_split_pieces _ _ _ Hin) as [H1 H2].
  split; [exact H1|]. rewrite Forall_forall in *. intros c Hc.
  now apply Hplain, H2.
Qed.

(** X16. For a file [.env] of plain units (no U+0000, no surrogate), a
    variable that [loadNodeEnv] leaves with a value either had that value
    before, or has a value that is not empty, carries no white space at
    either end and no line feed, under a name that is not empty, holds no
    equals sign and no line feed and does not begin with white space. *)
Theorem dotenv_values_are_trimmed
        (e : env) (w : NodeWorld) (name value : JSString) :
  (forall envContent, dotenv_file w = Some envContent ->
                      Forall plain_unit envContent) ->
  Map_get name (process_env (snd (loadNodeEnv e w))) = Some value ->
  Map_get name (process_env w) = Some value \/
  (value <> [] /\ trim value = value /\ ~ In LINE_FEED value /\
   name <> [] /\ ~ In EQUALS_SIGN name /\ ~ In LINE_FEED name /\
   (forall c r, name = c :: r -> is_WhiteSpace c = false)).
Proof.
  intros Hplain. rewrite loadNodeEnv_process_env.
  destruct (dotenv_file w) as [envContent|]; [|now left].
  specialize (Hplain envContent eq_refl). unfold dotenv_applied.
  pose proof (fun l => plain_lines envContent l Hplain) as Hlines.
  revert Hlines. generalize (String_split LINE_FEED envContent) as lines.
  intros lines Hlines. revert value.
  enough (H : forall penv',
             (forall v, Map_get name penv' = Some v ->
                        Map_get name (process_env w) = Some v \/
                        (v <> [] /\ trim v = v /\ ~ In LINE_FEED v /\
                         name <> [] /\ ~ In EQUALS_SIGN name /\
                         ~ In LINE_FEED name /\
                         (forall c r, name = c :: r -> is_WhiteSpace c = false))) ->
             forall v, Map_get name (fold_left dotenv_line lines penv') = Some v ->
                       Map_get name (process_env w) = Some v \/
                       (v <> [] /\ trim v = v /\ ~ In LINE_FEED v /\
                        name <> [] /\ ~ In EQUALS_SIGN name /\
                        ~ In LINE_FEED name /\
                        (forall c r, name = c :: r -> is_WhiteSpace c = false))).
  { apply H. intros v Hv. now left. }
  induction lines as [|l lines IH]; intros penv' Hinv;
    [exact Hinv|].
  cbn [fold_left]. apply IH; [intros p Hp; apply Hlines; now right|].
  destruct (Hlines l (or_introl eq_refl)) as [Hlf Hpl].
  intros v. rewrite dotenv_line_plain by assumption.
  destruct (dotenv_entry l) as [[k v']|] eqn:E; [|apply Hinv].
  apply dotenv_entry_assigns in E.
  destruct (str_eqb k name) eqn:Hk.
  - apply str_eqb_eq in Hk. subst k. rewrite Map_get_set_eq.
    intros [= <-]. right. now apply (dotenv_assigns_shape l).
  - apply str_eqb_neq in Hk. rewrite Map_get_set_neq by assumption.
    apply Hinv.
Qed.

Lemma dotenv_values_are_trimmed_witness :
  Map_get (js "A") (@Map_empty JSString) = Some (js "x y") \/
  (js "x y" <> [] /\ trim (js "x y") = js "x y" /\
   ~ In LINE_FEED (js "x y") /\
   js "A" <> [] /\ ~ In EQUALS_SIGN (js "A") /\ ~ In LINE_FEED (js "A") /\
   (forall c r, js "A" = c :: r -> is_WhiteSpace c = false)).
Proof.
  apply (dotenv_values_are_trimmed
           (mkEnv 0 true)
           (mkNodeWorld Map_empty
                        (Some (js "A =1" ++ [LINE_FEED] ++ js " A=  x y "))
                        empty_store)
           (js "A") (js "x y")).
  - intros envContent [= <-]. repeat constructor; unfold plain_unit; lia.
  - reflexivity.
Defined.





(** X18. The name is not trimmed on the side of the equals sign: for a
    name and a value of plain units, a line written [NAME = value], with
    spaces around the sign, sets the variable whose name is NAME followed
    by a space, and leaves the variable NAME as it was. *)
Theorem dotenv_name_keeps_trailing_space
        (penv : JSMap JSString) (c : Z) (r value : JSString) :
  Forall plain_unit (c :: r) -> Forall plain_unit value ->
  is_WhiteSpace c = false -> c <> 35 -> ~ In EQUALS_SIGN (c :: r) ->
  trim value = value -> value <> [] ->
  dotenv_line penv ((c :: r) ++ js " = " ++ value)
  = Map_set ((c :: r) ++ js " ") value penv /\
  Map_get (c :: r) (dotenv_line penv ((c :: r) ++ js " = " ++ value))
  = Map_get (c :: r) penv.
Proof.
  intros Hpk Hpv Hc Hhash Hk Htrim Hval.
  assert (Hset : dotenv_line penv ((c :: r) ++ js " = " ++ value)
                 = Map_set ((c :: r) ++ js " ") value penv).
  { rewrite dotenv_line_entry.
    enough (Hent : dotenv_entry ((c :: r) ++ js " = " ++ value)
                   = Some ((c :: r) ++ js " ", value)).
    { rewrite Hent. apply process_env_set_plain.
      - apply Forall_app. split; [exact Hpk|].
        repeat constructor; unfold plain_unit; lia.
      - exact Hpv.
      - discriminate.
      - change (js " ") with [32]. intros H. apply in_app_or in H as [H|H];
          [now apply Hk|]. destruct H as [H|[]]. discriminate H. }
    apply dotenv_entry_assigns. exists (32 :: value).
    destruct (exists_last Hval) as (v' & d & Ev).
    assert (Hd : is_WhiteSpace d = false)
      by (apply (trim_last value v' d); now rewrite Htrim).
    split; [|split; [|split; [|split; [|split]]]].
    - change (js " = ") with ([32] ++ EQUALS_SIGN :: [32]).
      change (js " ") with [32].
      rewrite <- !app_assoc. cbn [app].
      apply (trim_id _ c d (r ++ 32 :: EQUALS_SIGN :: 32 :: value));
        [reflexivity| |exact Hc|exact Hd].
      exists (c :: r ++ 32 :: EQUALS_SIGN :: 32 :: v').
      rewrite Ev. cbn [app]. f_equal. rewrite <- !app_assoc. reflexivity.
    - change (js " ") with [32]. intros H. apply in_app_or in H as [H|H];
        [now apply Hk|]. destruct H as [H|[]]. discriminate H.
    - discriminate.
    - change (js "#") with [35]. cbn [app startsWith].
      destruct (Z.eqb_spec c 35); [contradiction|reflexivity].
    - unfold trim. cbn [trimStart]. change (is_WhiteSpace 32) with true.
      cbv iota. symmetry. exact Htrim.
    - exact Hval. }
  split; [exact Hset|]. rewrite Hset. apply Map_get_set_neq.
  change (js " ") with [32]. intros H.
  apply (f_equal (@List.length Z)) in H. rewrite length_app in H.
  simpl in H. lia.
Qed.

Lemma dotenv_name_keeps_trailing_space_witness :
  Map_get (js "PORT") (dotenv_line [] (js "PORT" ++ js " = " ++ js "8080"))
  = None.
Proof.
  apply (proj2 (dotenv_name_keeps_trailing_space
                  [] 80 (js "ORT") (js "8080")
                  ltac:(repeat constructor; unfold plain_unit; lia)
                  ltac:(repeat constructor; unfold plain_unit; lia)
                  eq_refl ltac:(discriminate)
                  ltac:(unfold EQUALS_SIGN; simpl; intuition discriminate)
                  eq_refl ltac:(discriminate))).
Defined.

(** * Further properties of the store: restarts and repeated reads *)

Lemma constructor_data_of_file (e e' : env) (s s' : state) :
  file s' = file s ->
  data (snd (new_LocalKVStorage e' s')) = data (snd (new_LocalKVStorage e s)).
Proof.
  intros H. rewrite !constructor_run. cbn [snd]. rewrite H.
  destruct (file s) as [[|members]|]; reflexivity.
Qed.

(** X19. A change whose write the disk refused does not survive a restart:
    a store constructed on the same path after such a put or delete builds
    the map it would have built before the call. *)
Theorem failed_write_lost_on_restart
        (s : state) (e e' : env) (k : JSString) (v : PutValue)
        (options : option PutOptions) :
  fs_writable e = false ->
  data (snd (new_LocalKVStorage e' (snd (LocalKVStorage.put k v options e s))))
  = data (snd (new_LocalKVStorage e' s)) /\
  data (snd (new_LocalKVStorage e' (snd (LocalKVStorage.delete k e s))))
  = data (snd (new_LocalKVStorage e' s)).
Proof.
  intros Hw.
  split; apply constructor_data_of_file;
    [rewrite put_run|rewrite delete_run]; cbn [snd]; unfold saved, with_data;
    cbn [directory]; rewrite Hw; now destruct (negb (directory s)).
Qed.

Lemma failed_write_lost_on_restart_witness :
  data (snd (new_LocalKVStorage (mkEnv 2 true)
               (snd (LocalKVStorage.put (js "a") (StringValue (js "1")) None
                       (mkEnv 1 false) empty_store))))
  = data (snd (new_LocalKVStorage (mkEnv 2 true) empty_store)).
Proof.
  apply (failed_write_lost_on_restart empty_store (mkEnv 1 false)
           (mkEnv 2 true) (js "a") (StringValue (js "1")) None).
  reflexivity.
Defined.

Lemma expired_later (t t' : Z) (it : Item) :
  t <= t' -> expired t it = true -> expired t' it = true.
Proof.
  intros Hle H. destruct (expired t' it) eqn:E; [reflexivity|].
  rewrite (expired_mono t' t it Hle E) in H. discriminate.
Qed.

Lemma live_live (t t' : Z) (m : JSMap Item) :
  t <= t' -> live t' (live t m) = live t' m.
Proof.
  intros Hle. unfold live. rewrite filter_filter_and. apply filter_ext.
  intros [k it]. cbn [snd]. destruct (expired t it) eqn:E; [|reflexivity].
  now rewrite (expired_later t t' it Hle E).
Qed.

(** X20. Reads do not disturb later reads: with a clock that does not run
    backwards, a get or a list answers the same whether or not another get
    or list came before it. *)
Theorem earlier_read_does_not_change_answers
        (s : state) (e e' : env) (k k' : JSString)
        (type type' : option GetType) (arg arg' : ListArgument) :
  Map_wf (data s) -> Date_now e <= Date_now e' ->
  fst (LocalKVStorage.get k' type' e' (snd (LocalKVStorage.get k type e s)))
  = fst (LocalKVStorage.get k' type' e' s) /\
  fst (LocalKVStorage.get k' type' e' (snd (LocalKVStorage.list arg e s)))
  = fst (LocalKVStorage.get k' type' e' s) /\
  fst (LocalKVStorage.list arg' e' (snd (LocalKVStorage.get k type e s)))
  = fst (LocalKVStorage.list arg' e' s) /\
  fst (LocalKVStorage.list arg' e' (snd (LocalKVStorage.list arg e s)))
  = fst (LocalKVStorage.list arg' e' s).
Proof.
  intros Hwf Hle.
  assert (Hg : Map_wf (data (snd (LocalKVStorage.get k type e s))))
    by (rewrite get_data by assumption; now apply live_wf).
  assert (Hl : Map_wf (data (snd (LocalKVStorage.list arg e s))))
    by (rewrite list_data by assumption; now apply live_wf).
  rewrite (get_run e' _ k' type' Hg), (get_run e' _ k' type' Hl),
    (list_run e' _ arg' Hg), (list_run e' _ arg' Hl),
    (get_run e' s k' type' Hwf), (list_run e' s arg' Hwf).
  cbn [fst]. rewrite get_data, list_data by assumption.
  rewrite !live_live by assumption.
  repeat split.
Qed.

Lemma earlier_read_does_not_change_answers_witness :
  fst (LocalKVStorage.get (js "token") None (mkEnv 700 true)
         (snd (LocalKVStorage.get (js "session:1") None (mkEnv 600 true)
                 two_sessions)))
  = fst (LocalKVStorage.get (js "token") None (mkEnv 700 true) two_sessions).
Proof.
  apply (earlier_read_does_not_change_answers two_sessions (mkEnv 600 true)
           (mkEnv 700 true) (js "session:1") (js "token") None None
           Undefined Undefined two_sessions_wf).
  simpl. lia.
Defined.
